(** * Network-resource allocation in [api.py]

    A shallow embedding of the two allocation routines of the control
    plane, [get_ips] (next free IPv4/IPv6 address pair) and [add_host]
    (next free /48 prefix for a new host), together with the parts of
    Python's [ipaddress] module and of the MongoDB collections they use.

    Conventions.
    - A Python call either returns a value or raises: [outcome A].
    - The database is passed explicitly; a handler that writes returns the
      new database next to its outcome.
    - Collections are lists of documents in natural (insertion) order, which
      is the order [find()] iterates them and [find_one]/[update_one] pick
      their first match. *)

From stdpp Require Import base tactics option list strings numbers pretty.
From Stdlib Require Import NArith Lia Ascii.

Local Open Scope N_scope.
Local Open Scope string_scope.

(** ** Outcomes of a Python call *)

(** The exceptions the two routines can end in.  [HTTPException] carries the
    status code the handler passes (500 with detail "No available prefixes
    to assign", 422 with detail "PoP ... doesn't exist"); the other three
    are the uncaught Python exceptions of the code paths modelled here. *)
Inductive exn : Type :=
  | Exception (msg : string)        (* raise Exception(msg) *)
  | TypeError                       (* subscripting None *)
  | ValueError                      (* raised inside ipaddress *)
  | HTTPException (status_code : N).

Inductive outcome (A : Type) : Type :=
  | Return (a : A)
  | Raise (e : exn).
Arguments Return {A} a.
Arguments Raise {A} e.

Global Instance exn_eq_dec : EqDecision exn.
Proof. solve_decision. Defined.

(** Status codes named as [starlette.status] names them. *)
Definition HTTP_200_OK : N := 200.
Definition HTTP_422_UNPROCESSABLE_ENTITY : N := 422.
Definition HTTP_500_INTERNAL_SERVER_ERROR : N := 500.

Record Response := { status_code : N; content : string }.

(** ** Documents and collections *)

(** The single document of the [config] collection: the two address bases
    read by [get_ips] and the parent block read by [add_host]. *)
Record Config := {
  prefix4 : string;
  prefix6 : string;
  cfg_prefix : string   (* config_doc["prefix"] *)
}.

(** A document of the [containers] collection; only [ip4] is queried. *)
Record Container := { ip4 : string }.

(** Modelled from the spec: [models.admin.Host] is not among the sources.
    The spec's data model gives a host the fields pop, ip and prefix;
    [prefix] is [None] until the allocator fills it, which is what
    [_host.get("prefix")] then observes. *)
Record Host := {
  pop : string;
  ip : string;
  prefix : option string
}.

(** Modelled from the spec: [models.admin.PoP] is not among the sources.
    A PoP has a unique name and an ordered sequence of hosts; a document
    without a [hosts] array is one whose list is empty. *)
Record PoP := {
  name : string;
  hosts : list Host
}.

Record Database := {
  config : list Config;
  containers : list Container;
  pops : list PoP
}.

Global Instance Host_eq_dec : EqDecision Host.
Proof. solve_decision. Defined.
Global Instance PoP_eq_dec : EqDecision PoP.
Proof. solve_decision. Defined.

(** [db["config"].find_one()]: the first document, or [None]. *)
Definition find_one_config (db : Database) : option Config := head (config db).



(** Python's [str] on a non-negative integer. *)
Definition str_int (n : N) : string := pretty n.

(** ** [get_ips] *)

(** [get_ips] reads its collections through [app.db]; that handle is taken
    to be the database the other handlers reach as [db]. *)




(** ** The [ipaddress] module: networks, [subnets] and [str] *)

Inductive ip_version : Type := IPv4 | IPv6.

Global Instance ip_version_eq_dec : EqDecision ip_version.
Proof. solve_decision. Defined.

(** An [IPv4Network] or [IPv6Network] object: its version, the integer of
    its network address and its prefix length. *)
Record IPNetwork := {
  version : ip_version;
  network_address : N;
  prefixlen : N
}.

Global Instance IPNetwork_eq_dec : EqDecision IPNetwork.
Proof. solve_decision. Defined.

Definition max_prefixlen (v : ip_version) : N :=
  match v with IPv4 => 32 | IPv6 => 128 end.

(** [int(net.hostmask)] and [int(net.broadcast_address)]. *)
Definition hostmask (net : IPNetwork) : N :=
  2 ^ (max_prefixlen (version net) - prefixlen net) - 1.

Definition broadcast_address (net : IPNetwork) : N :=
  N.lor (network_address net) (hostmask net).

(** Python's [range(start, stop, step)] for a positive [step]. *)
Definition py_range_step (start stop step : N) : list N :=
  (λ i, start + N.of_nat i * step)
    <$> seq 0 (N.to_nat ((stop - start + step - 1) / step)).

(** [list(net.subnets(new_prefix=new_prefix))].  The generator's checks run
    when [list] first advances it, so the [ValueError]s surface there.  A
    network that is already a single address yields itself, whatever
    [new_prefix] is. *)
Definition subnets (net : IPNetwork) (new_prefix : N) : outcome (list IPNetwork) :=
  if decide (prefixlen net = max_prefixlen (version net)) then Return [net]
  else if decide (new_prefix < prefixlen net) then Raise ValueError
  else
    let prefixlen_diff := new_prefix - prefixlen net in
    let new_prefixlen := prefixlen net + prefixlen_diff in
    if decide (max_prefixlen (version net) < new_prefixlen) then Raise ValueError
    else
      let start := network_address net in
      let stop := broadcast_address net + 1 in
      let step := N.shiftr (hostmask net + 1) prefixlen_diff in
      Return ((λ new_addr,
                 {| version := version net;
                    network_address := new_addr;
                    prefixlen := new_prefixlen |})
                <$> py_range_step start stop step).

(** ['%x' % n]: lower-case hexadecimal without leading zeros. *)
Definition hex_digit (d : N) : ascii :=
  match String.get (N.to_nat d) "0123456789abcdef" with
  | Some c => c
  | None => "0"%char
  end.

Fixpoint py_hex_go (fuel : nat) (n : N) (acc : string) : string :=
  match fuel with
  | O => acc
  | S fuel' =>
      if decide (n = 0) then acc
      else py_hex_go fuel' (n / 16) (String (hex_digit (n mod 16)) acc)
  end.

Definition py_hex (n : N) : string :=
  if decide (n = 0) then "0" else py_hex_go (N.size_nat n) n "".

(** The eight hextets of a 128-bit integer, most significant first, each
    printed with ['%x']. *)
Definition hextets_of (ip_int : N) : list string :=
  (λ i, py_hex (N.land (N.shiftr ip_int (16 * (7 - N.of_nat i))) 65535))
    <$> seq 0 8.

(** The scan of [_compress_hextets] for the longest run of "0" hextets.
    The state is (best start, best length, current start, current length);
    a start of [None] is the source's [-1]. *)
Definition compress_step (st : option nat * nat * option nat * nat)
    (ih : nat * string) : option nat * nat * option nat * nat :=
  let '(best_start, best_len, cur_start, cur_len) := st in
  let '(index, hextet) := ih in
  if decide (hextet = "0") then
    let cur_len := S cur_len in
    let cur_start := match cur_start with None => Some index | s => s end in
    if decide (best_len < cur_len)%nat
    then (cur_start, cur_len, cur_start, cur_len)
    else (best_start, best_len, cur_start, cur_len)
  else (best_start, best_len, None, O).

Definition _compress_hextets (hextets : list string) : list string :=
  let '(best_start, best_len, _, _) :=
    foldl compress_step (None, O, None, O) (imap (λ i h, (i, h)) hextets) in
  match best_start with
  | Some best_start =>
      if decide (1 < best_len)%nat then
        let best_end := (best_start + best_len)%nat in
        let hextets :=
          if decide (best_end = length hextets) then (hextets ++ [""])%list
          else hextets in
        let hextets :=
          (take best_start hextets ++ [""] ++ drop best_end hextets)%list in
        if decide (best_start = O) then "" :: hextets else hextets
      else hextets
  | None => hextets
  end.

(** [sep.join(parts)]. *)
Definition join (sep : string) (parts : list string) : string :=
  String.concat sep parts.

(** [str] of an address integer, by version. *)
Definition str_address (v : ip_version) (ip_int : N) : string :=
  match v with
  | IPv6 => join ":" (_compress_hextets (hextets_of ip_int))
  | IPv4 =>
      join "." ((λ i, str_int (N.land (N.shiftr ip_int (8 * (3 - N.of_nat i))) 255))
                  <$> seq 0 4)
  end.

(** [str(net)]: ['%s/%d' % (net.network_address, net.prefixlen)]. *)
Definition str_network (net : IPNetwork) : string :=
  str_address (version net) (network_address net) ++ "/" ++ str_int (prefixlen net).

(** ** [add_host] *)

(** The prefixes of every host of every PoP, in scan order: the list the two
    nested loops over [db["pops"].find()] build.  An entry is [None] for a
    host whose [prefix] is [None]. *)
Definition taken_prefixes (db : Database) : list (option string) :=
  pops db ≫= λ p, prefix <$> hosts p.

(** Python's truth value of [_host.get("prefix")]: [None] and the empty
    string are false. *)
Definition truthy (o : option string) : bool :=
  match o with
  | Some s => bool_decide (s ≠ "")
  | None => false
  end.

Definition set_prefix (_host : Host) (slash48 : string) : Host :=
  {| pop := pop _host; ip := ip _host; prefix := Some slash48 |}.

(** One iteration of the loop over the reversed subnets: the candidate is
    stored when it is not taken, and the loop goes on either way (the source
    has no [break]). *)
Definition try_prefix (taken : list (option string)) (_host : Host)
    (slash48 : IPNetwork) : Host :=
  let slash48 := str_network slash48 in
  if decide (Some slash48 ∈ taken) then _host else set_prefix _host slash48.

(** [db["pops"].update_one({"name": n}, {"$push": {"hosts": h}})]: the first
    PoP named [n] gets [h] appended; the second component is
    [matched_count]. *)
Fixpoint update_one_push (n : string) (h : Host) (ps : list PoP) : list PoP * N :=
  match ps with
  | [] => ([], 0)
  | p :: ps' =>
      if decide (name p = n)
      then ({| name := name p; hosts := (hosts p ++ [h])%list |} :: ps', 1)
      else let '(ps'', matched) := update_one_push n h ps' in (p :: ps'', matched)
  end.

Section add_host.

(** [ipaddress.ip_network] on the configured text: the network it denotes,
    or [None] when it raises [ValueError].  Parsing is left to the
    library; everything below holds for whatever it accepts. *)
Variable ip_network : string → option IPNetwork.

(** Lines 143 to 150: load the configuration, enumerate the /48 subnets of
    the parent block in reverse, and settle the prefix of [_host]. *)
Definition find_prefix (config_doc : option Config)
    (taken : list (option string)) (_host : Host) : outcome Host :=
  match config_doc with
  | None => Raise TypeError
  | Some config_doc =>
      match ip_network (cfg_prefix config_doc) with
      | None => Raise ValueError
      | Some parent_prefix =>
          match subnets parent_prefix 48 with
          | Raise e => Raise e
          | Return slash48s =>
              let _host := foldl (try_prefix taken) _host (reverse slash48s) in
              if truthy (prefix _host) then Return _host
              else Raise (HTTPException HTTP_500_INTERNAL_SERVER_ERROR)
          end
      end
  end.

(** Lines 152 to 157: the single update, and the answer by its
    [matched_count]. *)
Definition push_host (db : Database) (_host : Host)
    : outcome Response * Database :=
  let '(pops', matched_count) := update_one_push (pop _host) _host (pops db) in
  let db' := {| config := config db; containers := containers db; pops := pops' |} in
  if decide (matched_count = 1)
  then (Return {| status_code := HTTP_200_OK; content := "Host added" |}, db')
  else (Raise (HTTPException HTTP_422_UNPROCESSABLE_ENTITY), db').

(** The handler run without interruption.  [host] is the request body
    after [host.dict()] and the cast of its address to text. *)
Definition add_host (db : Database) (host : Host) : outcome Response * Database :=
  match find_prefix (find_one_config db) (taken_prefixes db) host with
  | Raise e => (Raise e, db)
  | Return _host => push_host db _host
  end.

(** *** The handler between its awaits

    [add_host] is a coroutine: it can be suspended at each [await], and
    other requests run in between.  A [task] is a request at one of its
    suspension points, holding the locals it has computed so far. *)
Inductive task : Type :=
  | AwaitPops (host : Host)
  | AwaitConfig (_host : Host) (taken : list (option string))
  | AwaitUpdate (_host : Host)
  | Finished (r : outcome Response).

(** Resume a task until its next suspension point. *)
Definition resume (t : task) (db : Database) : task * Database :=
  match t with
  | AwaitPops host => (AwaitConfig host (taken_prefixes db), db)
  | AwaitConfig _host taken =>
      match find_prefix (find_one_config db) taken _host with
      | Raise e => (Finished (Raise e), db)
      | Return _host => (AwaitUpdate _host, db)
      end
  | AwaitUpdate _host =>
      let '(r, db') := push_host db _host in (Finished r, db')
  | Finished r => (Finished r, db)
  end.

(** A schedule names, step by step, the task the event loop resumes. *)
Fixpoint run_schedule (schedule : list nat) (ts : list task) (db : Database)
    : list task * Database :=
  match schedule with
  | [] => (ts, db)
  | i :: schedule' =>
      match ts !! i with
      | None => run_schedule schedule' ts db
      | Some t =>
          let '(t', db') := resume t db in
          run_schedule schedule' (<[i := t']> ts) db'
      end
  end.

End add_host.

(** The prefixes assigned fleet-wide: the non-[None] entries of the scan. *)
Definition assigned_prefixes (db : Database) : list string :=
  omap id (taken_prefixes db).

(** ** A parser for the examples

    The theorems below hold for any [ip_network].  To run the handlers on
    concrete configuration text we also give the parser itself, for the
    notation the examples use: IPv6 CIDR text made of hexadecimal groups with
    at most one "::", read strictly (no host bits set).  It follows
    [IPv6Address._ip_int_from_string] and [IPv6Network.__init__]; dotted
    IPv4 text, IPv4 suffixes and scope ids are not covered and are
    rejected. *)

(** [s.split(c)]. *)
Fixpoint split_on (c : ascii) (s : string) : list string :=
  match s with
  | EmptyString => [""]
  | String a s' =>
      if decide (a = c) then "" :: split_on c s'
      else match split_on c s' with
           | p :: ps => String a p :: ps
           | [] => [String a ""]
           end
  end.

Definition digit_value (base : N) (c : ascii) : option N :=
  let n := N_of_ascii c in
  let v :=
    if decide (48 ≤ n ∧ n ≤ 57)%N then Some (n - 48)
    else if decide (97 ≤ n ∧ n ≤ 102)%N then Some (n - 87)
    else if decide (65 ≤ n ∧ n ≤ 70)%N then Some (n - 55)
    else None in
  v ≫= λ d, if decide (d < base) then Some d else None.

(** [int(s, base)] for a non-empty string of digits of that base. *)
Fixpoint int_of_digits (base : N) (acc : N) (s : string) : option N :=
  match s with
  | EmptyString => Some acc
  | String c s' => digit_value base c ≫= λ d, int_of_digits base (acc * base + d) s'
  end.

Definition py_int (base : N) (s : string) : option N :=
  if decide (s = "") then None else int_of_digits base 0 s.

Definition _parse_hextet (hextet_str : string) : option N :=
  if decide (4 < String.length hextet_str)%nat then None else py_int 16 hextet_str.

(** Shift the hextets of [parts] into [ip_int], most significant first. *)
Fixpoint shift_in (ip_int : N) (parts : list string) : option N :=
  match parts with
  | [] => Some ip_int
  | p :: parts' =>
      _parse_hextet p ≫= λ h, shift_in (N.lor (N.shiftl ip_int 16) h) parts'
  end.

Definition _ip_int_from_string (ip_str : string) : option N :=
  let parts := split_on ":" ip_str in
  let n := length parts in
  if decide (n < 3 ∨ 9 < n)%nat then None
  else
    (* the indices, endpoints apart, of an empty part: a "::" *)
    let skips := filter (λ i, parts !! i = Some "") (seq 1 (n - 2)) in
    match skips with
    | [] =>
        if decide (n = 8)%nat then shift_in 0 parts else None
    | [skip_index] =>
        let head_empty := bool_decide (head parts = Some "") in
        let last_empty := bool_decide (last parts = Some "") in
        let parts_hi := if head_empty then (skip_index - 1)%nat else skip_index in
        let parts_lo :=
          if last_empty then (n - skip_index - 2)%nat else (n - skip_index - 1)%nat in
        if decide ((head_empty = true ∧ parts_hi ≠ O)
                   ∨ (last_empty = true ∧ parts_lo ≠ O)
                   ∨ (8 < parts_hi + parts_lo + 1)%nat) then None
        else
          let parts_skipped := (8 - (parts_hi + parts_lo))%nat in
          shift_in 0 (take parts_hi parts) ≫= λ hi,
          shift_in (N.shiftl hi (16 * N.of_nat parts_skipped))
                   (drop (n - parts_lo) parts)
    | _ => None
    end.

(** [ipaddress.ip_network(text)] on that notation. *)
Definition ip_network_v6 (text : string) : option IPNetwork :=
  match split_on "/" text with
  | [addr] =>
      _ip_int_from_string addr ≫= λ a,
      Some {| version := IPv6; network_address := a; prefixlen := 128 |}
  | [addr; mask] =>
      _ip_int_from_string addr ≫= λ a,
      py_int 10 mask ≫= λ len,
      let net := {| version := IPv6; network_address := a; prefixlen := len |} in
      if decide (128 < len) then None
      else if decide (N.land a (hostmask net) ≠ 0) then None
      else Some net
  | _ => None
  end.

(** ** [add_pop] *)

Definition HTTP_409_CONFLICT : N := 409.

(** [db["pops"].insert_one(doc)] under the unique index on [name] that the
    module creates at start-up: a document whose name is already stored is
    refused with [DuplicateKeyError] ([None]); any other is appended. *)
Definition insert_one_pop (doc : PoP) (ps : list PoP) : option (list PoP) :=
  if decide (name doc ∈ name <$> ps) then None else Some (ps ++ [doc])%list.

(** The handler: 409 on [DuplicateKeyError], 200 otherwise.  An insert that
    went through always carries an [inserted_id], so the final 500 of the
    source is never reached. *)
Definition add_pop (db : Database) (pop : PoP) : outcome Response * Database :=
  match insert_one_pop pop (pops db) with
  | None => (Raise (HTTPException HTTP_409_CONFLICT), db)
  | Some pops' =>
      (Return {| status_code := HTTP_200_OK;
                 content := "PoP " ++ name pop ++ " added" |},
       {| config := config db; containers := containers db; pops := pops' |})
  end.

(** ** Requests one after the other *)

Section add_hosts.

Variable ip_network : string → option IPNetwork.

(** A sequence of [add_host] requests, each run to its end before the next
    starts: the answers in order, and the database they leave. *)
Fixpoint add_hosts (db : Database) (hs : list Host)
    : list (outcome Response) * Database :=
  match hs with
  | [] => ([], db)
  | host :: hs' =>
      let '(r, db1) := add_host ip_network db host in
      let '(rs, db2) := add_hosts db1 hs' in
      (r :: rs, db2)
  end.

End add_hosts.


(** ** [get_ansible_hosts]: the hosts of the inventory *)





(** * Vocabulary of the statements and example data *)

(** The first network of a list whose text is not taken. *)
Definition first_free (taken : list (option string)) (l : list IPNetwork)
    : option IPNetwork :=
  head (filter (λ n, Some (str_network n) ∉ taken) l).

(** No PoP of [ps] is named [n]. *)
Definition pop_absent (n : string) (ps : list PoP) : Prop :=
  ∀ p, p ∈ ps → name p ≠ n.

(** ** Example data

    The address pool of the specification's example, and a small fleet: two
    PoPs, the parent block 2001:db8::/46 (four /48s) and requests that carry
    no prefix. *)




Definition pop_of (n : string) (hs : list Host) : PoP := {| name := n; hosts := hs |}.

Definition request (p a : string) : Host := {| pop := p; ip := a; prefix := None |}.

Definition fleet (parent : string) (ps : list PoP) : Database :=
  {| config := [{| prefix4 := "10.0.0."; prefix6 := "fd00::"; cfg_prefix := parent |}];
     containers := [];
     pops := ps |}.

Definition empty_fleet : Database :=
  fleet "2001:db8::/46" [pop_of "ams" []; pop_of "fra" []].

(** The fleet after one host was added to "ams". *)
Definition fleet_one : Database :=
  fleet "2001:db8::/46"
    [pop_of "ams" [set_prefix (request "ams" "192.0.2.1") "2001:db8::/48"];
     pop_of "fra" []].

Definition fleet_two : Database :=
  fleet "2001:db8::/46"
    [pop_of "ams" [set_prefix (request "ams" "192.0.2.1") "2001:db8::/48"];
     pop_of "fra" [set_prefix (request "fra" "192.0.2.2") "2001:db8:1::/48"]].

Definition host_added : outcome Response :=
  Return {| status_code := HTTP_200_OK; content := "Host added" |}.

(** The parent block of the fleet and its four /48s, lowest first. *)
Definition slash46 : IPNetwork :=
  {| version := IPv6;
     network_address := 0x20010db8000000000000000000000000;
     prefixlen := 46 |}.

Definition slash46_subnets : list IPNetwork :=
  (λ i, {| version := IPv6;
           network_address := 0x20010db8000000000000000000000000 + i * 2 ^ 80;
           prefixlen := 48 |}) <$> [0; 1; 2; 3].

(** A parent block that is a single /48, already held by a host of "ams". *)
Definition exhausted_fleet : Database :=
  fleet "2001:db8::/48"
    [pop_of "ams" [set_prefix (request "ams" "192.0.2.1") "2001:db8::/48"]].

(** A parent block too long to be split into /48s. *)
Definition slash64_fleet : Database :=
  fleet "2001:db8::/64" [pop_of "ams" []].




(** The registry after both requests read it before either wrote. *)
Definition raced_fleet : Database :=
  fleet "2001:db8::/46"
    [pop_of "ams" [set_prefix (request "ams" "192.0.2.1") "2001:db8::/48"];
     pop_of "fra" [set_prefix (request "fra" "192.0.2.2") "2001:db8::/48"]].

(** ** Vocabulary for the texts of the candidates *)

(** [c in s]. *)
Fixpoint contains (c : ascii) (s : string) : bool :=
  match s with
  | EmptyString => false
  | String a s' => if decide (a = c) then true else contains c s'
  end.

(** The parts of a compressed address that stand before its "::" marker. *)
Fixpoint before_marker (parts : list string) : list string :=
  match parts with
  | [] => []
  | p :: parts' => if decide (p = "") then [] else p :: before_marker parts'
  end.

(** What [ipaddress] guarantees of every network object it builds: the
    prefix length fits the address width, the address fits it too, and no
    host bit is set. *)
Definition well_formed (net : IPNetwork) : Prop :=
  (prefixlen net ≤ max_prefixlen (version net))%N
  ∧ (network_address net < 2 ^ max_prefixlen (version net))%N
  ∧ N.land (network_address net) (hostmask net) = 0%N.

(** ** Vocabulary for the inventory *)







(** ** Example data of the further properties *)

(** The fleet after [add_pop] stored a third PoP, "lon". *)
Definition fleet_lon : Database :=
  fleet "2001:db8::/46" [pop_of "ams" []; pop_of "fra" []; pop_of "lon" []].

(** As many requests as the parent block 2001:db8::/46 has /48s. *)
Definition four_requests : list Host :=
  [request "ams" "192.0.2.1"; request "fra" "192.0.2.2";
   request "ams" "192.0.2.3"; request "fra" "192.0.2.4"].


(** * Properties *)

(** ** Ranges and lookups *)




Lemma lookup_py_range_step (start stop step : N) (i : nat) (x : N) :
  py_range_step start stop step !! i = Some x →
  x = start + N.of_nat i * step
  ∧ (N.of_nat i < (stop - start + step - 1) / step)%N.
Proof.
  unfold py_range_step. rewrite list_lookup_fmap.
  destruct (seq _ _ !! i) as [k|] eqn:Hk; [|done].
  apply lookup_seq in Hk as [-> Hlt]. simpl. intros [= <-]. split; [done|lia].
Qed.






(** ** Address allocation *)







(** ** The candidates of the prefix loop *)

Lemma slash48_step (parent : IPNetwork) :
  (prefixlen parent ≤ 48)%N →
  (48 < max_prefixlen (version parent))%N →
  N.shiftr (hostmask parent + 1) (48 - prefixlen parent)
  = 2 ^ (max_prefixlen (version parent) - 48).
Proof.
  intros Hle Hlt. unfold hostmask.
  set (w := max_prefixlen (version parent)) in *.
  assert (2 ^ (w - prefixlen parent) ≠ 0) by (apply N.pow_nonzero; lia).
  replace (2 ^ (w - prefixlen parent) - 1 + 1) with (2 ^ (w - prefixlen parent)) by lia.
  rewrite N.shiftr_div_pow2.
  replace (w - prefixlen parent) with ((w - 48) + (48 - prefixlen parent)) by lia.
  rewrite N.pow_add_r. apply N.div_mul. apply N.pow_nonzero. lia.
Qed.

Lemma N_le_lor (a b : N) : (a ≤ N.lor a b)%N.
Proof.
  assert (N.lor a b = a + N.ldiff b a) as ->; [|lia].
  assert (N.land a (N.ldiff b a) = 0) as Hdisjoint.
  { apply N.bits_inj. intros k.
    rewrite N.land_spec, N.ldiff_spec, N.bits_0.
    by destruct (N.testbit a k), (N.testbit b k). }
  rewrite N.add_nocarry_lxor by exact Hdisjoint.
  rewrite N.lxor_lor by exact Hdisjoint.
  apply N.bits_inj. intros k. rewrite !N.lor_spec, N.ldiff_spec.
  by destruct (N.testbit a k), (N.testbit b k).
Qed.

(** The candidates of a parent block of prefix length at most 48: the i-th
    one is the /48 that starts i blocks of 2^(width-48) addresses above the
    parent's network address, and it lies inside the parent. *)
Lemma subnets_slash48_lookup (parent : IPNetwork) (l : list IPNetwork)
    (i : nat) (n : IPNetwork) :
  (prefixlen parent ≤ 48)%N →
  (48 < max_prefixlen (version parent))%N →
  subnets parent 48 = Return l →
  l !! i = Some n →
  version n = version parent ∧ prefixlen n = 48
  ∧ network_address n
    = network_address parent
      + N.of_nat i * 2 ^ (max_prefixlen (version parent) - 48)
  ∧ (network_address n ≤ broadcast_address parent)%N.
Proof.
  intros Hle Hlt Hsub Hi. unfold subnets in Hsub.
  rewrite decide_False in Hsub by lia.
  rewrite decide_False in Hsub by lia.
  rewrite decide_False in Hsub by lia.
  rewrite slash48_step in Hsub by done.
  injection Hsub as <-. rewrite list_lookup_fmap in Hi.
  destruct (py_range_step _ _ _ !! i) as [a|] eqn:Ha; [|done].
  injection Hi as <-. simpl.
  apply lookup_py_range_step in Ha as [-> Hcount].
  repeat split; [lia|].
  set (step := 2 ^ (max_prefixlen (version parent) - 48)) in *.
  assert (step ≠ 0) as Hstep by (apply N.pow_nonzero; lia).
  pose proof (N_le_lor (network_address parent) (hostmask parent)) as Hbc.
  fold (broadcast_address parent) in Hbc, Hcount.
  set (D := broadcast_address parent + 1 - network_address parent) in *.
  pose proof (N.Div0.mul_div_le (D + step - 1) step) as Hq.
  nia.
Qed.

(** X2.  Every candidate that [add_host] enumerates for a parent block of
    prefix length at most 48 is a /48 of the parent's version inside the
    parent, and [subnets] lists the candidates in strictly ascending address
    order; the loop walks that list backwards. *)
Theorem subnets_slash48_ascending (parent : IPNetwork) (l : list IPNetwork) :
  (prefixlen parent ≤ 48)%N →
  (48 < max_prefixlen (version parent))%N →
  subnets parent 48 = Return l →
  (∀ n, n ∈ l →
     version n = version parent ∧ prefixlen n = 48
     ∧ (network_address parent ≤ network_address n ≤ broadcast_address parent)%N)
  ∧ (∀ i j n m, (i < j)%nat → l !! i = Some n → l !! j = Some m →
       (network_address n < network_address m)%N).
Proof.
  intros Hle Hlt Hsub. split.
  - intros n Hn. apply list_elem_of_lookup in Hn as [i Hi].
    destruct (subnets_slash48_lookup parent l i n) as (? & ? & Haddr & ?); try done.
    repeat split; try done. lia.
  - intros i j n m Hij Hi Hj.
    destruct (subnets_slash48_lookup parent l i n) as (_ & _ & -> & _); try done.
    destruct (subnets_slash48_lookup parent l j m) as (_ & _ & -> & _); try done.
    assert (2 ^ (max_prefixlen (version parent) - 48) ≠ 0)
      by (apply N.pow_nonzero; lia).
    nia.
Qed.

Lemma subnets_slash46_ascending :
  (∀ n, n ∈ slash46_subnets →
     version n = version slash46 ∧ prefixlen n = 48
     ∧ (network_address slash46 ≤ network_address n ≤ broadcast_address slash46)%N)
  ∧ (∀ i j n m, (i < j)%nat →
       slash46_subnets !! i = Some n → slash46_subnets !! j = Some m →
       (network_address n < network_address m)%N).
Proof.
  apply (subnets_slash48_ascending slash46 slash46_subnets).
  - vm_compute. discriminate.
  - reflexivity.
  - vm_compute. reflexivity.
Defined.


(** ** The prefix loop *)



Lemma first_free_cons_taken taken n l :
  Some (str_network n) ∈ taken → first_free taken (n :: l) = first_free taken l.
Proof.
  intros Hin. unfold first_free. rewrite filter_cons.
  destruct (decide _) as [Hfree|_]; [by destruct Hfree|done].
Qed.

Lemma first_free_cons_free taken n l :
  Some (str_network n) ∉ taken → first_free taken (n :: l) = Some n.
Proof.
  intros Hfree. unfold first_free. rewrite filter_cons.
  destruct (decide _) as [_|Hno]; [done|by destruct Hno].
Qed.

Lemma first_free_Some taken l n :
  first_free taken l = Some n → n ∈ l ∧ Some (str_network n) ∉ taken.
Proof.
  unfold first_free. intros Hhd. apply head_Some_elem_of in Hhd.
  by apply list_elem_of_filter in Hhd as [? ?].
Qed.

Lemma first_free_None taken l :
  first_free taken l = None ↔ ∀ n, n ∈ l → Some (str_network n) ∈ taken.
Proof.
  unfold first_free. rewrite head_None. split.
  - intros Hnil n Hn. destruct (decide (Some (str_network n) ∈ taken)); [done|].
    assert (n ∈ filter (λ n, Some (str_network n) ∉ taken) l) as Hin
      by by apply list_elem_of_filter.
    rewrite Hnil in Hin. by apply elem_of_nil in Hin.
  - intros Hall. induction l as [|m l IH]; [done|].
    rewrite filter_cons. destruct (decide _) as [Hfree|_].
    + exfalso. apply Hfree, Hall. by left.
    + apply IH. intros n Hn. apply Hall. by right.
Qed.

Lemma try_prefix_pop_ip taken _host slash48 :
  pop (try_prefix taken _host slash48) = pop _host
  ∧ ip (try_prefix taken _host slash48) = ip _host.
Proof. unfold try_prefix. by destruct (decide _). Qed.

Lemma set_prefix_try_prefix taken _host slash48 s :
  set_prefix (try_prefix taken _host slash48) s = set_prefix _host s.
Proof.
  unfold set_prefix.
  by destruct (try_prefix_pop_ip taken _host slash48) as [-> ->].
Qed.

(** What the loop leaves in [_host].  The reversed list is walked to its
    end, every free candidate overwrites the one stored before it, and so
    the prefix that survives is the free candidate that comes first in the
    order [subnets] lists them, the last one the loop visits. *)
Lemma prefix_loop_first_free taken (_host : Host) (slash48s : list IPNetwork) :
  foldl (try_prefix taken) _host (reverse slash48s)
  = match first_free taken slash48s with
    | Some n => set_prefix _host (str_network n)
    | None => _host
    end.
Proof.
  induction slash48s as [|n l IH]; [done|].
  rewrite reverse_cons, foldl_app. simpl.
  destruct (decide (Some (str_network n) ∈ taken)) as [Htaken|Hfree].
  - rewrite first_free_cons_taken by done. rewrite <- IH.
    unfold try_prefix at 1. by rewrite decide_True.
  - rewrite first_free_cons_free by done.
    unfold try_prefix at 1. rewrite decide_False by done.
    rewrite IH. by destruct (first_free taken l).
Qed.

Lemma str_network_nonempty (n : IPNetwork) : str_network n ≠ "".
Proof.
  unfold str_network. by destruct (str_address (version n) (network_address n)).
Qed.

Lemma truthy_str_network (n : IPNetwork) : truthy (Some (str_network n)) = true.
Proof. simpl. apply bool_decide_eq_true, str_network_nonempty. Qed.

(** ** The update *)

Lemma update_one_push_absent (n : string) (h : Host) (ps : list PoP) :
  pop_absent n ps → update_one_push n h ps = (ps, 0).
Proof.
  unfold pop_absent. induction ps as [|p ps IH]; intros Habs; [done|].
  simpl. rewrite decide_False by (apply Habs; by left).
  rewrite IH; [done|]. intros q Hq. apply Habs. by right.
Qed.

(** The update either matches nothing and changes nothing, or rewrites
    exactly the first PoP of that name, appending the host. *)
Lemma update_one_push_spec (n : string) (h : Host) (ps : list PoP) :
  (pop_absent n ps ∧ update_one_push n h ps = (ps, 0))
  ∨ (∃ i p,
        ps !! i = Some p ∧ name p = n
        ∧ pop_absent n (take i ps)
        ∧ update_one_push n h ps
          = (<[i := {| name := name p; hosts := (hosts p ++ [h])%list |}]> ps, 1)).
Proof.
  induction ps as [|q ps IH].
  - left. split; [|done]. intros p Hp. by apply elem_of_nil in Hp.
  - simpl. destruct (decide (name q = n)) as [Hq|Hq].
    + right. exists O, q. repeat split; try done.
      intros p Hp. by apply elem_of_nil in Hp.
    + destruct IH as [[Habs ->]|(i & p & Hi & Hp & Habs & ->)].
      * left. split; [|done]. intros p Hp.
        apply elem_of_cons in Hp as [->|Hp]; [done|by apply Habs].
      * right. exists (S i), p. repeat split; try done.
        intros p' Hp'. simpl in Hp'.
        apply elem_of_cons in Hp' as [->|Hp']; [done|by apply Habs].
Qed.

Lemma taken_prefixes_cons (cfg : list Config) (cs : list Container) p ps :
  taken_prefixes {| config := cfg; containers := cs; pops := p :: ps |}
  = ((prefix <$> hosts p)
     ++ taken_prefixes {| config := cfg; containers := cs; pops := ps |})%list.
Proof. done. Qed.

(** Appending a host to one PoP adds its prefix to the fleet-wide scan. *)
Lemma taken_prefixes_push cfg cs (ps : list PoP) (i : nat) (p : PoP) (h : Host) :
  ps !! i = Some p →
  taken_prefixes
    {| config := cfg; containers := cs;
       pops := <[i := {| name := name p; hosts := (hosts p ++ [h])%list |}]> ps |}
  ≡ₚ prefix h :: taken_prefixes {| config := cfg; containers := cs; pops := ps |}.
Proof.
  revert i. induction ps as [|q ps IH]; intros i Hi; [done|].
  destruct i as [|i]; simpl in Hi.
  - injection Hi as ->. simpl. rewrite !taken_prefixes_cons. simpl.
    rewrite fmap_app. simpl. rewrite <- app_assoc. simpl.
    by rewrite <- Permutation_middle.
  - simpl. rewrite !taken_prefixes_cons. rewrite (IH i Hi).
    by rewrite <- Permutation_middle.
Qed.

(** ** Prefix allocation and the host registry *)

Section add_host_properties.

Variable ip_network : string → option IPNetwork.

(** A successful allocation: the configuration was there and parsed, the
    parent block could be split, and the host either received the first
    free /48 or kept a prefix it arrived with. *)
Lemma find_prefix_Return config_doc taken host _host :
  find_prefix ip_network config_doc taken host = Return _host →
  ∃ cfg parent slash48s,
    config_doc = Some cfg
    ∧ ip_network (cfg_prefix cfg) = Some parent
    ∧ subnets parent 48 = Return slash48s
    ∧ ((∃ n, first_free taken slash48s = Some n
             ∧ _host = set_prefix host (str_network n))
       ∨ (first_free taken slash48s = None
          ∧ _host = host ∧ truthy (prefix host) = true)).
Proof.
  unfold find_prefix. intros Hret.
  destruct config_doc as [cfg|]; [|done].
  destruct (ip_network (cfg_prefix cfg)) as [parent|] eqn:Hparse; [|done].
  destruct (subnets parent 48) as [slash48s|] eqn:Hsub; [|done].
  exists cfg, parent, slash48s. repeat split; try done.
  rewrite prefix_loop_first_free in Hret.
  destruct (first_free taken slash48s) as [n|].
  - left. exists n. split; [done|].
    destruct (truthy _); by inversion Hret.
  - right. destruct (truthy (prefix host)) eqn:Htruthy; by inversion Hret.
Qed.

(** For a request that carries no prefix, the one stored is a /48 of the
    parent block that the fleet-wide scan did not contain. *)
Lemma find_prefix_fresh config_doc taken host _host :
  truthy (prefix host) = false →
  find_prefix ip_network config_doc taken host = Return _host →
  ∃ n, _host = set_prefix host (str_network n) ∧ Some (str_network n) ∉ taken.
Proof.
  intros Hunset Hret.
  apply find_prefix_Return in Hret
    as (cfg & parent & l & _ & _ & _ & [(n & Hfree & ->)|(_ & _ & Htruthy)]).
  - exists n. split; [done|]. by apply first_free_Some in Hfree as [_ ?].
  - congruence.
Qed.

Lemma find_prefix_pop config_doc taken host _host :
  find_prefix ip_network config_doc taken host = Return _host →
  pop _host = pop host ∧ ip _host = ip host.
Proof.
  intros Hret.
  apply find_prefix_Return in Hret
    as (cfg & parent & l & _ & _ & _ & [(n & _ & ->)|(_ & -> & _)]); done.
Qed.

(** X3.  What the prefix loop computes.  Of the candidates in the order
    [subnets] lists them, the one stored is the free candidate of lowest
    index: every candidate before it is taken.  Walking the list backwards
    without stopping visits that candidate last. *)
Theorem find_prefix_lowest_free (cfg : Config) (parent : IPNetwork)
    (slash48s : list IPNetwork) (taken : list (option string)) (host : Host)
    (i : nat) (n : IPNetwork) :
  ip_network (cfg_prefix cfg) = Some parent →
  subnets parent 48 = Return slash48s →
  slash48s !! i = Some n →
  Some (str_network n) ∉ taken →
  (∀ j m, (j < i)%nat → slash48s !! j = Some m → Some (str_network m) ∈ taken) →
  find_prefix ip_network (Some cfg) taken host
  = Return (set_prefix host (str_network n)).
Proof.
  intros Hparse Hsub Hi Hfree Hbelow. unfold find_prefix.
  rewrite Hparse, Hsub, prefix_loop_first_free.
  assert (first_free taken slash48s = Some n) as ->.
  { clear Hsub. revert i Hi Hbelow.
    induction slash48s as [|m l IH]; intros i Hi Hbelow; [done|].
    destruct i as [|i]; simpl in Hi.
    - injection Hi as ->. by apply first_free_cons_free.
    - rewrite first_free_cons_taken by (apply (Hbelow O m); [lia|done]).
      apply (IH i Hi). intros j m' Hj Hm'. apply (Hbelow (S j) m'); [lia|done]. }
  simpl. by rewrite bool_decide_eq_true_2 by apply str_network_nonempty.
Qed.

(** A handler that answers 200 went through both steps, and its update
    matched. *)
Lemma add_host_Return db host r db' :
  add_host ip_network db host = (Return r, db') →
  ∃ _host i p,
    find_prefix ip_network (find_one_config db) (taken_prefixes db) host
      = Return _host
    ∧ pops db !! i = Some p ∧ name p = pop host
    ∧ pop_absent (pop host) (take i (pops db))
    ∧ db' = {| config := config db; containers := containers db;
               pops := <[i := {| name := name p;
                                 hosts := (hosts p ++ [_host])%list |}]> (pops db) |}.
Proof.
  unfold add_host. intros Hrun.
  destruct (find_prefix _ _ _ host) as [_host|e] eqn:Hfind; [|done].
  destruct (find_prefix_pop _ _ _ _ Hfind) as [Hpop _].
  exists _host. unfold push_host in Hrun.
  destruct (update_one_push_spec (pop _host) _host (pops db))
    as [[_ Hupd]|(i & p & Hi & Hp & Habs & Hupd)]; rewrite Hupd in Hrun.
  - by rewrite decide_False in Hrun by done.
  - rewrite decide_True in Hrun by done. rewrite Hpop in *.
    exists i, p. repeat split; try done. by inversion Hrun.
Qed.

(** C5.  A successful [add_host] stores a prefix that no host of any PoP
    had: the fleet-wide list of assigned prefixes grows by exactly that one
    prefix, so it stays free of duplicates.  The request is one that
    carries no prefix of its own. *)
Theorem add_host_prefix_unique db host r db' :
  truthy (prefix host) = false →
  add_host ip_network db host = (Return r, db') →
  NoDup (assigned_prefixes db) →
  ∃ slash48,
    (Some slash48 ∉ taken_prefixes db)
    ∧ (slash48 ∉ assigned_prefixes db)
    ∧ assigned_prefixes db' ≡ₚ slash48 :: assigned_prefixes db
    ∧ NoDup (assigned_prefixes db').
Proof.
  intros Hunset Hrun Hnodup.
  apply add_host_Return in Hrun as (_host & i & p & Hfind & Hi & _ & _ & ->).
  apply find_prefix_fresh in Hfind as (n & -> & Hfresh); [|done].
  exists (str_network n).
  assert (str_network n ∉ assigned_prefixes db) as Hnew.
  { unfold assigned_prefixes. rewrite list_elem_of_omap.
    intros (o & Ho & Hid). simpl in Hid. by subst o. }
  assert (assigned_prefixes
            {| config := config db; containers := containers db;
               pops := <[i := {| name := name p;
                                 hosts := (hosts p
                                   ++ [set_prefix host (str_network n)])%list |}]>
                         (pops db) |}
          ≡ₚ str_network n :: assigned_prefixes db) as Hperm.
  { unfold assigned_prefixes. rewrite taken_prefixes_push by done.
    simpl. by destruct db. }
  repeat split; try done.
  rewrite Hperm. by constructor.
Qed.

(** C10.  A successful [add_host] leaves the configuration and the
    containers alone and rewrites one PoP document only, the first one
    named as the request's [pop]: the new host, with the request's pop
    and address, is appended to its list.  Every other PoP document is
    the same as before, and so is every host the target already had. *)
Theorem add_host_frame db host r db' :
  add_host ip_network db host = (Return r, db') →
  config db' = config db ∧ containers db' = containers db
  ∧ ∃ i p _host,
      pops db !! i = Some p ∧ name p = pop host
      ∧ pop_absent (pop host) (take i (pops db))
      ∧ pop _host = pop host ∧ ip _host = ip host
      ∧ pops db' !! i
        = Some {| name := name p; hosts := (hosts p ++ [_host])%list |}
      ∧ length (pops db') = length (pops db)
      ∧ ∀ j, j ≠ i → pops db' !! j = pops db !! j.
Proof.
  intros Hrun.
  apply add_host_Return in Hrun as (_host & i & p & Hfind & Hi & Hp & Habs & ->).
  destruct (find_prefix_pop _ _ _ _ Hfind) as [Hpop Hip].
  simpl. repeat split. exists i, p, _host. repeat split; try done.
  - apply list_lookup_insert_eq. by eapply lookup_lt_Some.
  - apply length_insert.
  - intros j Hj. by apply list_lookup_insert_ne.
Qed.

End add_host_properties.

Example add_host_empty_fleet :
  add_host ip_network_v6 empty_fleet (request "ams" "192.0.2.1")
  = (host_added, fleet_one).
Proof. vm_compute. reflexivity. Qed.

Example add_host_fleet_one :
  add_host ip_network_v6 fleet_one (request "fra" "192.0.2.2")
  = (host_added, fleet_two).
Proof. vm_compute. reflexivity. Qed.

Lemma add_host_prefix_unique_fleet_one :
  ∃ slash48,
    (Some slash48 ∉ taken_prefixes fleet_one)
    ∧ (slash48 ∉ assigned_prefixes fleet_one)
    ∧ assigned_prefixes fleet_two ≡ₚ slash48 :: assigned_prefixes fleet_one
    ∧ NoDup (assigned_prefixes fleet_two).
Proof.
  apply (add_host_prefix_unique ip_network_v6 fleet_one
           (request "fra" "192.0.2.2") {| status_code := 200; content := "Host added" |}).
  - reflexivity.
  - vm_compute. reflexivity.
  - vm_compute. apply NoDup_singleton.
Defined.

Lemma add_host_frame_fleet_one :
  config fleet_two = config fleet_one ∧ containers fleet_two = containers fleet_one
  ∧ ∃ i p _host,
      pops fleet_one !! i = Some p ∧ name p = "fra"
      ∧ pop_absent "fra" (take i (pops fleet_one))
      ∧ pop _host = "fra" ∧ ip _host = "192.0.2.2"
      ∧ pops fleet_two !! i
        = Some {| name := name p; hosts := (hosts p ++ [_host])%list |}
      ∧ length (pops fleet_two) = length (pops fleet_one)
      ∧ ∀ j, j ≠ i → pops fleet_two !! j = pops fleet_one !! j.
Proof.
  apply (add_host_frame ip_network_v6 fleet_one
           (request "fra" "192.0.2.2") {| status_code := 200; content := "Host added" |}).
  vm_compute. reflexivity.
Defined.

Lemma find_prefix_lowest_free_fleet_one :
  find_prefix ip_network_v6 (find_one_config fleet_one)
    (taken_prefixes fleet_one) (request "fra" "192.0.2.2")
  = Return (set_prefix (request "fra" "192.0.2.2") "2001:db8:1::/48").
Proof.
  apply (find_prefix_lowest_free ip_network_v6
           {| prefix4 := "10.0.0."; prefix6 := "fd00::";
              cfg_prefix := "2001:db8::/46" |}
           slash46 slash46_subnets (taken_prefixes fleet_one)
           (request "fra" "192.0.2.2") 1
           {| version := IPv6;
              network_address := 0x20010db8000000000000000000000000 + 1 * 2 ^ 80;
              prefixlen := 48 |}).
  - vm_compute. reflexivity.
  - vm_compute. reflexivity.
  - reflexivity.
  - vm_compute. intros Hin. apply list_elem_of_singleton in Hin. discriminate Hin.
  - intros j m Hj Hm. assert (j = O) as -> by lia.
    injection Hm as <-. vm_compute. left.
Defined.

(** C1.  The parent block 2001:db8::/46 is enumerated highest /48 first,
    but the loop does not stop at the first free candidate: with nothing
    taken the host is given 2001:db8::/48, the lowest /48 and the last one
    visited, not 2001:db8:3::/48; with that one taken it is given
    2001:db8:1::/48, again the lowest one left. *)
Theorem find_prefix_keeps_last_free :
  (reverse <$> (ip_network_v6 "2001:db8::/46" ≫= λ parent,
                  match subnets parent 48 with
                  | Return l => Some (str_network <$> l)
                  | Raise _ => None
                  end))
  = Some ["2001:db8:3::/48"; "2001:db8:2::/48"; "2001:db8:1::/48"; "2001:db8::/48"]
  ∧ find_prefix ip_network_v6 (find_one_config empty_fleet)
      (taken_prefixes empty_fleet) (request "ams" "192.0.2.1")
    = Return (set_prefix (request "ams" "192.0.2.1") "2001:db8::/48")
  ∧ find_prefix ip_network_v6 (find_one_config fleet_one)
      (taken_prefixes fleet_one) (request "fra" "192.0.2.2")
    = Return (set_prefix (request "fra" "192.0.2.2") "2001:db8:1::/48").
Proof. vm_compute. auto. Qed.

(** ** Failures of [add_host] *)

Section add_host_failures.

Variable ip_network : string → option IPNetwork.

(** A request whose allocation fails is answered with that failure and
    writes nothing. *)
Lemma add_host_find_prefix_Raise db host e :
  find_prefix ip_network (find_one_config db) (taken_prefixes db) host = Raise e →
  add_host ip_network db host = (Raise e, db).
Proof. unfold add_host. by intros ->. Qed.


(** C6, as the code has it.  When no PoP carries the requested name,
    [add_host] fails and the database is unchanged.  The failure is the
    422 "PoP doesn't exist" error whenever the prefix allocation before it
    succeeds; the code looks at the PoP only in its final update, so an
    allocation that fails is reported instead. *)
Theorem add_host_missing_pop db host :
  pop_absent (pop host) (pops db) →
  ∃ e,
    add_host ip_network db host = (Raise e, db)
    ∧ (∀ _host,
         find_prefix ip_network (find_one_config db) (taken_prefixes db) host
           = Return _host →
         e = HTTPException HTTP_422_UNPROCESSABLE_ENTITY).
Proof.
  intros Habs. unfold add_host.
  destruct (find_prefix _ _ _ host) as [_host|e] eqn:Hfind.
  - exists (HTTPException HTTP_422_UNPROCESSABLE_ENTITY). split; [|done].
    destruct (find_prefix_pop _ _ _ _ _ Hfind) as [Hpop _].
    unfold push_host. rewrite Hpop.
    rewrite update_one_push_absent by done.
    rewrite decide_False by done. by destruct db.
  - exists e. split; [done|]. intros _host Heq. discriminate Heq.
Qed.


End add_host_failures.



(** C6, against the claim as written: no PoP is named "fra", yet the
    request fails with the 500 of an exhausted parent block, not with the
    422 of a missing PoP. *)
Lemma add_host_missing_pop_exhausted :
  pop_absent "fra" (pops exhausted_fleet)
  ∧ add_host ip_network_v6 exhausted_fleet (request "fra" "192.0.2.2")
    = (Raise (HTTPException HTTP_500_INTERNAL_SERVER_ERROR), exhausted_fleet)
  ∧ HTTPException HTTP_500_INTERNAL_SERVER_ERROR
    ≠ HTTPException HTTP_422_UNPROCESSABLE_ENTITY.
Proof.
  repeat split.
  - intros p Hp. apply list_elem_of_singleton in Hp. by subst p.
  - discriminate.
Qed.

Lemma add_host_missing_pop_lon :
  ∃ e,
    add_host ip_network_v6 empty_fleet (request "lon" "192.0.2.3")
    = (Raise e, empty_fleet)
    ∧ (∀ _host,
         find_prefix ip_network_v6 (find_one_config empty_fleet)
           (taken_prefixes empty_fleet) (request "lon" "192.0.2.3")
           = Return _host →
         e = HTTPException HTTP_422_UNPROCESSABLE_ENTITY).
Proof.
  apply (add_host_missing_pop ip_network_v6 empty_fleet (request "lon" "192.0.2.3")).
  intros p Hp. simpl in Hp.
  apply elem_of_cons in Hp as [->|Hp]; [done|].
  apply list_elem_of_singleton in Hp. by subst p.
Defined.


(** ** Determinism *)

Section determinism.

Variable ip_network : string → option IPNetwork.


End determinism.


(** ** Interleaved requests *)

(** A request that is never interrupted runs as [add_host] does. *)
Lemma run_schedule_alone ip_network (db : Database) (host : Host) :
  run_schedule ip_network [0; 0; 0]%nat [AwaitPops host] db
  = ([Finished (add_host ip_network db host).1], (add_host ip_network db host).2).
Proof.
  unfold add_host. simpl.
  destruct (find_prefix _ _ _ host) as [_host|e]; simpl; [|done].
  by destruct (push_host db _host).
Qed.

(** C9.  Two requests on the empty fleet.  Run one after the other they
    receive two different prefixes.  Resumed in turn, so that both scan the
    PoPs before either update, both are answered 200 and both hosts are
    stored with 2001:db8::/48: the registry then holds a duplicate. *)
Theorem interleaved_add_host_duplicates :
  run_schedule ip_network_v6 [0; 0; 0; 1; 1; 1]%nat
    [AwaitPops (request "ams" "192.0.2.1"); AwaitPops (request "fra" "192.0.2.2")]
    empty_fleet
  = ([Finished host_added; Finished host_added], fleet_two)
  ∧ assigned_prefixes fleet_two = ["2001:db8::/48"; "2001:db8:1::/48"]
  ∧ run_schedule ip_network_v6 [0; 1; 0; 1; 0; 1]%nat
      [AwaitPops (request "ams" "192.0.2.1"); AwaitPops (request "fra" "192.0.2.2")]
      empty_fleet
    = ([Finished host_added; Finished host_added], raced_fleet)
  ∧ assigned_prefixes raced_fleet = ["2001:db8::/48"; "2001:db8::/48"].
Proof. vm_compute. auto. Qed.

(** * Further properties of the handlers *)

(** ** What [add_host] leaves alone *)

Section add_host_frame_conditions.

Variable ip_network : string → option IPNetwork.

Lemma push_host_pop_absent db _host :
  pop_absent (pop _host) (pops db) →
  push_host db _host = (Raise (HTTPException HTTP_422_UNPROCESSABLE_ENTITY), db).
Proof.
  intros Habs. unfold push_host. rewrite update_one_push_absent by done.
  rewrite decide_False by done. by destruct db.
Qed.

Lemma update_one_push_names (n : string) (h : Host) (ps : list PoP) :
  name <$> (update_one_push n h ps).1 = name <$> ps.
Proof.
  induction ps as [|p ps IH]; [done|]. simpl.
  destruct (decide (name p = n)); [done|].
  destruct (update_one_push n h ps) as [ps' m]. simpl in *. by f_equal.
Qed.

Lemma push_host_present db _host p :
  p ∈ pops db → name p = pop _host →
  ∃ r db', push_host db _host = (Return r, db').
Proof.
  intros Hp Hname. unfold push_host.
  destruct (update_one_push_spec (pop _host) _host (pops db))
    as [[Habs _]|(i & q & _ & _ & _ & ->)].
  - by destruct (Habs p Hp).
  - rewrite decide_True by done. eauto.
Qed.

(** X4.  A request that fails, for whatever reason, writes nothing: the
    database after it is the database before it. *)
Theorem add_host_failure_writes_nothing db host e db' :
  add_host ip_network db host = (Raise e, db') → db' = db.
Proof.
  unfold add_host. destruct (find_prefix _ _ _ host) as [_host|e'].
  - unfold push_host.
    destruct (update_one_push_spec (pop _host) _host (pops db))
      as [[_ ->]|(i & p & _ & _ & _ & ->)].
    + rewrite decide_False by done. intros [= _ <-]. by destruct db.
    + rewrite decide_True by done. discriminate.
  - by intros [= _ <-].
Qed.

(** X5.  Whether it succeeds or fails, [add_host] never creates, removes,
    renames or reorders a PoP, and never touches the configuration or the
    containers. *)
Theorem add_host_keeps_pop_names db host :
  name <$> pops (add_host ip_network db host).2 = name <$> pops db
  ∧ config (add_host ip_network db host).2 = config db
  ∧ containers (add_host ip_network db host).2 = containers db.
Proof.
  unfold add_host. destruct (find_prefix _ _ _ host) as [_host|e]; [|done].
  unfold push_host.
  pose proof (update_one_push_names (pop _host) _host (pops db)) as Hnames.
  destruct (update_one_push _ _ _) as [ps' m]. simpl in Hnames.
  by destruct (decide (m = 1)).
Qed.

(** X6.  [add_host] answers 200 exactly when the configuration document is
    there, its parent block parses and can be enumerated, the loop settles a
    prefix (a free candidate, or a prefix the request arrived with), and some
    PoP carries the requested name. *)
Theorem add_host_succeeds_iff db host :
  (∃ r db', add_host ip_network db host = (Return r, db'))
  ↔ (∃ cfg parent slash48s,
        find_one_config db = Some cfg
        ∧ ip_network (cfg_prefix cfg) = Some parent
        ∧ subnets parent 48 = Return slash48s
        ∧ (truthy (prefix host) = true
           ∨ ∃ n, n ∈ slash48s ∧ Some (str_network n) ∉ taken_prefixes db)
        ∧ ∃ p, p ∈ pops db ∧ name p = pop host).
Proof.
  split.
  - intros (r & db' & Hrun).
    apply add_host_Return in Hrun as (_host & i & p & Hfind & Hi & Hp & _ & _).
    apply find_prefix_Return in Hfind
      as (cfg & parent & l & Hcfg & Hparse & Hsub & Hloop).
    exists cfg, parent, l. repeat split; try done.
    + destruct Hloop as [(n & Hfree & _)|(_ & _ & Htruthy)]; [right|by left].
      exists n. by apply first_free_Some.
    + exists p. split; [|done]. by eapply list_elem_of_lookup_2.
  - intros (cfg & parent & l & Hcfg & Hparse & Hsub & Hloop & p & Hp & Hname).
    unfold add_host, find_prefix. rewrite Hcfg, Hparse, Hsub.
    rewrite prefix_loop_first_free.
    destruct (first_free (taken_prefixes db) l) as [n|] eqn:Hff.
    + cbn [prefix set_prefix]. rewrite truthy_str_network.
      by apply (push_host_present _ _ p).
    + destruct Hloop as [->|(n & Hn & Hfree)]; [by apply (push_host_present _ _ p)|].
      exfalso. apply Hfree. by eapply first_free_None.
Qed.

End add_host_frame_conditions.

(** ** [add_pop] *)

Lemma insert_one_pop_None doc ps :
  insert_one_pop doc ps = None ↔ name doc ∈ name <$> ps.
Proof. unfold insert_one_pop. by destruct (decide _). Qed.

(** X7.  [add_pop] keeps PoP names unique.  A document whose name is
    already stored is answered 409 and nothing is written; any other is
    answered 200 and becomes the last PoP of the collection, the PoPs before
    it unchanged.  Either way, names that were pairwise distinct stay so. *)
Theorem add_pop_keeps_names_unique db doc :
  (name doc ∈ name <$> pops db →
     add_pop db doc = (Raise (HTTPException HTTP_409_CONFLICT), db))
  ∧ (name doc ∉ name <$> pops db →
       ∃ r, add_pop db doc
            = (Return r, {| config := config db; containers := containers db;
                            pops := (pops db ++ [doc])%list |}))
  ∧ (NoDup (name <$> pops db) → NoDup (name <$> pops (add_pop db doc).2)).
Proof.
  unfold add_pop, insert_one_pop. repeat split.
  - intros Hin. by rewrite decide_True.
  - intros Hnew. rewrite decide_False by done. eauto.
  - intros Hnodup. destruct (decide _) as [Hin|Hnew]; [done|]. simpl.
    rewrite fmap_app. apply NoDup_app. repeat split; try done.
    + intros n Hn Hn'. apply list_elem_of_singleton in Hn'. by subst n.
    + apply NoDup_singleton.
Qed.

Section add_pop_then_add_host.

Variable ip_network : string → option IPNetwork.

(** X8.  Once [add_pop] has stored a PoP, a host request for that PoP is
    never turned away as "PoP doesn't exist": it fails only if its prefix
    allocation fails, with that failure, and otherwise it is answered 200
    and the host is appended to a PoP of that name. *)
Theorem add_pop_then_add_host db doc r db1 host :
  add_pop db doc = (Return r, db1) →
  pop host = name doc →
  match find_prefix ip_network (find_one_config db1) (taken_prefixes db1) host with
  | Raise e => add_host ip_network db1 host = (Raise e, db1)
  | Return _host =>
      ∃ r' i p,
        pops db1 !! i = Some p ∧ name p = name doc
        ∧ add_host ip_network db1 host
          = (Return r',
             {| config := config db1; containers := containers db1;
                pops := <[i := {| name := name p;
                                  hosts := (hosts p ++ [_host])%list |}]> (pops db1) |})
  end.
Proof.
  intros Hadd Hname.
  assert (doc ∈ pops db1) as Hdoc.
  { unfold add_pop, insert_one_pop in Hadd.
    destruct (decide _); [done|]. injection Hadd as _ <-. simpl.
    apply elem_of_app. right. by left. }
  destruct (find_prefix _ _ _ host) as [_host|e] eqn:Hfind.
  - destruct (find_prefix_pop _ _ _ _ _ Hfind) as [Hpop _].
    unfold add_host. rewrite Hfind. unfold push_host.
    destruct (update_one_push_spec (pop _host) _host (pops db1))
      as [[Habs _]|(i & p & Hi & Hp & _ & ->)].
    + exfalso. apply (Habs doc Hdoc). congruence.
    + rewrite decide_True by done. eexists _, i, p.
      repeat split; [done|congruence].
  - by apply add_host_find_prefix_Raise.
Qed.

End add_pop_then_add_host.

(** ** Requests in sequence and requests interleaved *)

Section schedules.

Variable ip_network : string → option IPNetwork.






End schedules.

Section race.

Variable ip_network : string → option IPNetwork.

Lemma push_host_Return db _host r db' :
  push_host db _host = (Return r, db') →
  r = {| status_code := HTTP_200_OK; content := "Host added" |}
  ∧ ∃ i p,
      pops db !! i = Some p ∧ name p = pop _host
      ∧ db' = {| config := config db; containers := containers db;
                 pops := <[i := {| name := name p;
                                   hosts := (hosts p ++ [_host])%list |}]> (pops db) |}.
Proof.
  unfold push_host.
  destruct (update_one_push_spec (pop _host) _host (pops db))
    as [[_ ->]|(i & p & Hi & Hp & _ & ->)].
  - by rewrite decide_False by done.
  - rewrite decide_True by done. intros [= <- <-]. split; [done|].
    by exists i, p.
Qed.

Lemma assigned_prefixes_push db (i : nat) (p : PoP) (h : Host) (slash48 : string) :
  pops db !! i = Some p →
  assigned_prefixes
    {| config := config db; containers := containers db;
       pops := <[i := {| name := name p;
                         hosts := (hosts p ++ [set_prefix h slash48])%list |}]>
                 (pops db) |}
  ≡ₚ slash48 :: assigned_prefixes db.
Proof.
  intros Hi. unfold assigned_prefixes. rewrite taken_prefixes_push by done.
  simpl. by destruct db.
Qed.

(** X10.  Two requests that would each succeed on their own, resumed in
    turn so that both scan the PoPs before either writes, are both answered
    200 and are both stored with one and the same prefix: the registry ends
    with that prefix assigned twice. *)
Theorem interleaved_requests_share_prefix db h1 h2 r1 d1 r2 d2 :
  truthy (prefix h1) = false →
  truthy (prefix h2) = false →
  add_host ip_network db h1 = (Return r1, d1) →
  add_host ip_network db h2 = (Return r2, d2) →
  ∃ slash48 db',
    run_schedule ip_network [0; 1; 0; 1; 0; 1]%nat [AwaitPops h1; AwaitPops h2] db
    = ([Finished (Return r1); Finished (Return r2)], db')
    ∧ assigned_prefixes db' ≡ₚ slash48 :: slash48 :: assigned_prefixes db
    ∧ ¬ NoDup (assigned_prefixes db').
Proof.
  intros Hunset1 Hunset2 Hrun1 Hrun2.
  unfold add_host in Hrun1, Hrun2.
  destruct (find_prefix _ _ _ h1) as [_h1|] eqn:Hfind1; [|done].
  destruct (find_prefix _ _ _ h2) as [_h2|] eqn:Hfind2; [|done].
  (* both allocations settle on the same candidate *)
  pose proof Hfind1 as Hret1. pose proof Hfind2 as Hret2.
  apply find_prefix_Return in Hret1
    as (cfg & parent & l & Hcfg & Hparse & Hsub & [(n & Hn & ->)|(_ & _ & ?)]);
    [|congruence].
  apply find_prefix_Return in Hret2
    as (cfg' & parent' & l' & Hcfg' & Hparse' & Hsub' & [(n' & Hn' & ->)|(_ & _ & ?)]);
    [|congruence].
  assert (n' = n) as -> by congruence.
  (* the first update, and the PoP the second one finds after it *)
  pose proof Hrun1 as Hd1. pose proof Hrun2 as Hd2.
  apply push_host_Return in Hd1 as (Hr1 & i1 & p1 & Hi1 & Hp1 & Hd1).
  apply push_host_Return in Hd2 as (Hr2 & i2 & p2 & Hi2 & Hp2 & _).
  assert (∃ q, q ∈ pops d1 ∧ name q = pop (set_prefix h2 (str_network n)))
    as (q & Hq & Hqname).
  { rewrite Hd1. simpl. destruct (decide (i2 = i1)) as [->|Hne].
    - eexists. split.
      + apply list_elem_of_lookup. exists i1.
        apply list_lookup_insert_eq. by eapply lookup_lt_Some.
      + simpl. simpl in Hp2. congruence.
    - exists p2. split; [|done].
      apply list_elem_of_lookup. exists i2. by rewrite list_lookup_insert_ne. }
  destruct (push_host_present d1 _ q Hq Hqname) as (r & db' & Hpush).
  pose proof Hpush as Hdb'.
  apply push_host_Return in Hdb' as (Hr & j & q' & Hj & _ & Hdb').
  assert (assigned_prefixes db'
          ≡ₚ str_network n :: str_network n :: assigned_prefixes db) as Hperm.
  { rewrite Hdb', assigned_prefixes_push by done.
    by rewrite Hd1, assigned_prefixes_push by done. }
  exists (str_network n), db'. repeat split; [|done|].
  - simpl. rewrite Hfind1, Hfind2. simpl. rewrite Hrun1. simpl.
    rewrite Hpush. simpl. congruence.
  - rewrite Hperm. intros Hnodup. apply NoDup_cons in Hnodup as [Hnotin _].
    apply Hnotin. by left.
Qed.

End race.

(** * The texts of the candidates

    [add_host] compares candidates with stored prefixes as text, so a parent
    block serves as many hosts as its /48s have different texts.  This part
    shows that [str] keeps the /48s of a block apart. *)

(** ** Text *)

Lemma string_app_nil_l (s : string) : "" ++ s = s.
Proof. done. Qed.

Lemma string_app_cons (a : ascii) (s t : string) :
  String a s ++ t = String a (s ++ t).
Proof. done. Qed.

Lemma string_app_nil_r (s : string) : s ++ "" = s.
Proof. induction s as [|a s IH]; [done|]. by rewrite string_app_cons, IH. Qed.

Lemma string_app_assoc (s1 s2 s3 : string) : (s1 ++ s2) ++ s3 = s1 ++ (s2 ++ s3).
Proof.
  induction s1 as [|a s1 IH]; [done|]. by rewrite !string_app_cons, IH.
Qed.

Lemma string_length_app (s t : string) :
  String.length (s ++ t) = (String.length s + String.length t)%nat.
Proof.
  induction s as [|a s IH]; [done|]. rewrite string_app_cons. simpl. by rewrite IH.
Qed.

Lemma string_app_inv_tail (s1 s2 t : string) : s1 ++ t = s2 ++ t → s1 = s2.
Proof.
  intros Heq.
  assert (String.length s1 = String.length s2) as Hlen.
  { apply (f_equal String.length) in Heq. rewrite !string_length_app in Heq. lia. }
  revert s2 Heq Hlen. induction s1 as [|a s1 IH]; intros [|b s2] Heq Hlen;
    try done.
  rewrite !string_app_cons in Heq. injection Heq as -> Heq.
  f_equal. apply IH; [done|]. simpl in Hlen. lia.
Qed.

(** ** ['%x'] and [int(_, 16)] *)

Lemma N_lt_pow2_size_nat (n : N) : (n < 2 ^ N.of_nat (N.size_nat n))%N.
Proof.
  destruct n as [|p]; [done|]. simpl N.size_nat.
  induction p as [p IH|p IH|]; simpl Pos.size_nat;
    rewrite ?Nat2N.inj_succ, ?N.pow_succ_r'; lia.
Qed.

Lemma digit_value_hex_digit (d : N) :
  (d < 16)%N → digit_value 16 (hex_digit d) = Some d.
Proof.
  intros Hd.
  assert (d ∈ (N.of_nat <$> seq 0 16)) as Hin.
  { apply list_elem_of_fmap. exists (N.to_nat d). split; [lia|].
    apply elem_of_seq. lia. }
  vm_compute in Hin.
  repeat (apply elem_of_cons in Hin as [->|Hin]; [by vm_compute|]).
  by apply elem_of_nil in Hin.
Qed.

(** The digits [py_hex_go] writes in front of [acc] read back as [n]. *)
Lemma int_of_digits_py_hex_go (fuel : nat) (n : N) (acc : string) :
  (n < 2 ^ N.of_nat fuel)%N →
  ∃ s, py_hex_go fuel n acc = s ++ acc
       ∧ (n ≠ 0%N → s ≠ "")
       ∧ ∀ a rest, int_of_digits 16 a (s ++ rest)
                   = int_of_digits 16 (a * 16 ^ N.of_nat (String.length s) + n) rest.
Proof.
  revert n acc. induction fuel as [|fuel IH]; intros n acc Hn.
  - exists "". assert (n = 0%N) as -> by (simpl in Hn; lia).
    repeat split; [done|]. intros a rest. rewrite string_app_nil_l. simpl.
    f_equal. lia.
  - simpl. destruct (decide (n = 0%N)) as [->|Hn0].
    + exists "". repeat split; [done|]. intros a rest.
      rewrite string_app_nil_l. simpl. f_equal. lia.
    + destruct (IH (n / 16)%N (String (hex_digit (n mod 16)) acc))
        as (s & -> & _ & Hread).
      { rewrite Nat2N.inj_succ, N.pow_succ_r' in Hn.
        apply N.Div0.div_lt_upper_bound. lia. }
      exists (s ++ String (hex_digit (n mod 16)) "").
      rewrite string_app_assoc, string_app_cons, string_app_nil_l.
      repeat split.
      * by destruct s.
      * intros a rest.
        rewrite string_app_assoc, string_app_cons, string_app_nil_l.
        rewrite Hread. simpl.
        rewrite digit_value_hex_digit by (apply N.mod_lt; lia). simpl.
        f_equal. rewrite string_length_app. simpl.
        rewrite Nat2N.inj_add, N.pow_add_r. simpl N.of_nat.
        pose proof (N.div_mod n 16). lia.
Qed.

(** Round trip: reading ['%x' % n] as a hexadecimal number gives [n]. *)
Lemma py_int_py_hex (n : N) : py_int 16 (py_hex n) = Some n.
Proof.
  unfold py_hex. destruct (decide (n = 0%N)) as [->|Hn]; [done|].
  destruct (int_of_digits_py_hex_go (N.size_nat n) n "")
    as (s & -> & Hs & Hread); [apply N_lt_pow2_size_nat|].
  rewrite string_app_nil_r. unfold py_int. rewrite decide_False by auto.
  rewrite <- (string_app_nil_r s) at 1. rewrite Hread. simpl. f_equal; lia.
Qed.

Lemma py_hex_inj (n m : N) : py_hex n = py_hex m → n = m.
Proof.
  intros Heq. pose proof (py_int_py_hex n) as Hn.
  rewrite Heq, py_int_py_hex in Hn. congruence.
Qed.

(** ** [split] and [join] *)

Lemma split_on_no_sep (c : ascii) (s : string) :
  contains c s = false → split_on c s = [s].
Proof.
  induction s as [|a s IH]; [done|]. simpl.
  destruct (decide (a = c)); [done|]. intros Hs. by rewrite IH.
Qed.

Lemma split_on_app_sep (c : ascii) (s rest : string) :
  contains c s = false →
  split_on c (s ++ String c rest) = s :: split_on c rest.
Proof.
  induction s as [|a s IH].
  - intros _. rewrite string_app_nil_l. simpl. by rewrite decide_True.
  - intros Hs. simpl in Hs. destruct (decide (a = c)) as [|Hne]; [done|].
    rewrite string_app_cons. simpl. rewrite decide_False by done.
    by rewrite IH.
Qed.

(** Round trip: splitting a joined list at the separator gives the list
    back, when no part contains the separator. *)
Lemma split_on_join (c : ascii) (parts : list string) :
  parts ≠ [] →
  Forall (λ p, contains c p = false) parts →
  split_on c (join (String c "") parts) = parts.
Proof.
  intros Hne Hparts. induction Hparts as [|p parts Hp Hparts IH]; [done|].
  destruct parts as [|q parts].
  - simpl. by apply split_on_no_sep.
  - change (join (String c "") (p :: q :: parts))
      with (p ++ String c "" ++ join (String c "") (q :: parts)).
    rewrite string_app_cons, string_app_nil_l.
    rewrite split_on_app_sep by done. f_equal. by apply IH.
Qed.

Lemma int_of_digits_no_colon (a v : N) (s : string) :
  int_of_digits 16 a s = Some v → contains ":" s = false.
Proof.
  revert a. induction s as [|c s IH]; intros a; [done|]. simpl.
  destruct (decide (c = ":"%char)) as [->|_]; [by vm_compute|].
  destruct (digit_value 16 c) as [d|]; [|done]. simpl. apply IH.
Qed.

Lemma py_hex_no_colon (n : N) : contains ":" (py_hex n) = false.
Proof.
  pose proof (py_int_py_hex n) as Hread. unfold py_int in Hread.
  destruct (decide _); [done|]. by eapply int_of_digits_no_colon.
Qed.

Lemma py_hex_nonempty (n : N) : py_hex n ≠ "".
Proof.
  intros Heq. pose proof (py_int_py_hex n) as Hread.
  rewrite Heq in Hread. done.
Qed.


Lemma compress_slash48 (x0 x1 x2 : string) :
  x0 ≠ "" → x1 ≠ "" → x2 ≠ "" →
  contains ":" x0 = false → contains ":" x1 = false → contains ":" x2 = false →
  _compress_hextets [x0; x1; x2; "0"; "0"; "0"; "0"; "0"] ≠ []
  ∧ Forall (λ p, contains ":" p = false)
      (_compress_hextets [x0; x1; x2; "0"; "0"; "0"; "0"; "0"])
  ∧ take 3 (before_marker (_compress_hextets [x0; x1; x2; "0"; "0"; "0"; "0"; "0"])
            ++ ["0"; "0"; "0"])%list
    = [x0; x1; x2].
Proof.
  intros H0 H1 H2 C0 C1 C2.
  destruct (decide (x0 = "0")) as [->|N0], (decide (x1 = "0")) as [->|N1],
    (decide (x2 = "0")) as [->|N2];
    unfold _compress_hextets, compress_step; simpl;
    rewrite ?decide_False by done; simpl;
    rewrite ?decide_False by done; simpl;
    rewrite ?decide_False by done; simpl;
    (split; [done|split; [by repeat constructor|done]]).
Qed.


Lemma hextet_of_shift (a k : N) :
  N.land (N.shiftr a k) 65535 = ((a / 2 ^ k) mod 2 ^ 16)%N.
Proof.
  change 65535%N with (N.ones 16). by rewrite N.land_ones, N.shiftr_div_pow2.
Qed.

Lemma hextet_aligned_low (m k : N) :
  (k + 16 ≤ 80)%N → ((m * 2 ^ 80 / 2 ^ k) mod 2 ^ 16 = 0)%N.
Proof.
  intros Hk.
  replace 80%N with ((80 - k - 16) + 16 + k)%N at 1 by lia.
  rewrite !N.pow_add_r, !N.mul_assoc.
  rewrite N.div_mul by (apply N.pow_nonzero; lia).
  apply N.Div0.mod_mul.
Qed.

Lemma hextet_aligned_high (m k : N) :
  (80 ≤ k)%N → (m * 2 ^ 80 / 2 ^ k = m / 2 ^ (k - 80))%N.
Proof.
  intros Hk. replace k with ((k - 80) + 80)%N at 1 by lia.
  rewrite N.pow_add_r.
  apply N.Div0.div_mul_cancel_r. apply N.pow_nonzero. lia.
Qed.

Lemma hextets_of_aligned (m : N) :
  hextets_of (m * 2 ^ 80)
  = [py_hex ((m / 2 ^ 32) mod 2 ^ 16); py_hex ((m / 2 ^ 16) mod 2 ^ 16);
     py_hex (m mod 2 ^ 16); "0"; "0"; "0"; "0"; "0"].
Proof.
  unfold hextets_of. cbn [seq fmap list_fmap].
  rewrite !hextet_of_shift.
  change (16 * (7 - N.of_nat 0))%N with 112%N.
  change (16 * (7 - N.of_nat 1))%N with 96%N.
  change (16 * (7 - N.of_nat 2))%N with 80%N.
  change (16 * (7 - N.of_nat 3))%N with 64%N.
  change (16 * (7 - N.of_nat 4))%N with 48%N.
  change (16 * (7 - N.of_nat 5))%N with 32%N.
  change (16 * (7 - N.of_nat 6))%N with 16%N.
  change (16 * (7 - N.of_nat 7))%N with 0%N.
  rewrite (hextet_aligned_low m 64), (hextet_aligned_low m 48),
    (hextet_aligned_low m 32), (hextet_aligned_low m 16),
    (hextet_aligned_low m 0) by lia.
  rewrite (hextet_aligned_high m 112), (hextet_aligned_high m 96),
    (hextet_aligned_high m 80) by lia.
  change (112 - 80)%N with 32%N. change (96 - 80)%N with 16%N.
  change (80 - 80)%N with 0%N. rewrite N.pow_0_r, N.div_1_r.
  done.
Qed.


Lemma aligned_split (m : N) :
  (m < 2 ^ 48)%N →
  (m = (m / 2 ^ 32) mod 2 ^ 16 * 2 ^ 32 + (m / 2 ^ 16) mod 2 ^ 16 * 2 ^ 16
       + m mod 2 ^ 16)%N.
Proof.
  intros Hm.
  assert (m / 2 ^ 32 = m / 2 ^ 16 / 2 ^ 16)%N as Hdiv
    by (rewrite N.Div0.div_div, <- N.pow_add_r; done).
  rewrite (N.mod_small (m / 2 ^ 32) (2 ^ 16))
    by (apply N.Div0.div_lt_upper_bound; by rewrite <- N.pow_add_r).
  pose proof (N.div_mod m (2 ^ 16)) as H0.
  pose proof (N.div_mod (m / 2 ^ 16) (2 ^ 16)) as H1.
  rewrite Hdiv. change (2 ^ 32)%N with (2 ^ 16 * 2 ^ 16)%N.
  assert (2 ^ 16 ≠ 0)%N by done. lia.
Qed.

Lemma aligned_of_hextets (m m' : N) :
  (m < 2 ^ 48)%N → (m' < 2 ^ 48)%N →
  ((m / 2 ^ 32) mod 2 ^ 16 = (m' / 2 ^ 32) mod 2 ^ 16)%N →
  ((m / 2 ^ 16) mod 2 ^ 16 = (m' / 2 ^ 16) mod 2 ^ 16)%N →
  (m mod 2 ^ 16 = m' mod 2 ^ 16)%N →
  m = m'.
Proof.
  intros Hm Hm' H0 H1 H2.
  rewrite (aligned_split m), (aligned_split m') by done. congruence.
Qed.

(** [str] keeps apart the addresses that are multiples of 2^80, the network
    addresses of /48s. *)
Lemma str_address_aligned_inj (m m' : N) :
  (m < 2 ^ 48)%N → (m' < 2 ^ 48)%N →
  str_address IPv6 (m * 2 ^ 80) = str_address IPv6 (m' * 2 ^ 80) →
  m = m'.
Proof.
  intros Hm Hm' Heq. unfold str_address in Heq.
  rewrite !hextets_of_aligned in Heq.
  destruct (compress_slash48 (py_hex ((m / 2 ^ 32) mod 2 ^ 16))
              (py_hex ((m / 2 ^ 16) mod 2 ^ 16)) (py_hex (m mod 2 ^ 16)))
    as (Hne & Hcolon & Hback); auto using py_hex_nonempty, py_hex_no_colon.
  destruct (compress_slash48 (py_hex ((m' / 2 ^ 32) mod 2 ^ 16))
              (py_hex ((m' / 2 ^ 16) mod 2 ^ 16)) (py_hex (m' mod 2 ^ 16)))
    as (Hne' & Hcolon' & Hback'); auto using py_hex_nonempty, py_hex_no_colon.
  apply (f_equal (split_on ":")) in Heq.
  rewrite !split_on_join in Heq by done.
  rewrite Heq, Hback' in Hback. injection Hback as H0 H1 H2.
  apply py_hex_inj in H0, H1, H2.
  by apply aligned_of_hextets.
Qed.


(** ** The candidates of a well-formed parent *)

Lemma hostmask_succ (net : IPNetwork) :
  (hostmask net + 1 = 2 ^ (max_prefixlen (version net) - prefixlen net))%N.
Proof.
  unfold hostmask.
  assert (2 ^ (max_prefixlen (version net) - prefixlen net) ≠ 0)%N
    by (apply N.pow_nonzero; lia).
  lia.
Qed.

Lemma broadcast_address_add (net : IPNetwork) :
  N.land (network_address net) (hostmask net) = 0%N →
  broadcast_address net = (network_address net + hostmask net)%N.
Proof.
  intros Hland. unfold broadcast_address.
  by rewrite N.add_nocarry_lxor, N.lxor_lor.
Qed.

(** A network address without host bits is a multiple of the block size. *)
Lemma network_address_aligned (net : IPNetwork) :
  N.land (network_address net) (hostmask net) = 0%N →
  (network_address net mod 2 ^ (max_prefixlen (version net) - prefixlen net) = 0)%N.
Proof.
  intros Hland. rewrite <- N.land_ones.
  unfold hostmask in Hland. by rewrite N.ones_equiv, <- N.sub_1_r.
Qed.

(** The candidates of a well-formed IPv6 parent of prefix length [len] at
    most 48: there are 2^(48-len) of them, and the i-th is the /48 whose
    address is (s + i) * 2^80, where s * 2^80 is the parent's address. *)
Lemma slash48_candidates (parent : IPNetwork) (l : list IPNetwork) :
  version parent = IPv6 →
  (prefixlen parent ≤ 48)%N →
  well_formed parent →
  subnets parent 48 = Return l →
  length l = N.to_nat (2 ^ (48 - prefixlen parent))
  ∧ ∃ s, ∀ i n, l !! i = Some n →
       n = {| version := IPv6;
              network_address := (s + N.of_nat i) * 2 ^ 80;
              prefixlen := 48 |}
       ∧ (s + N.of_nat i < 2 ^ 48)%N.
Proof.
  intros Hv Hlen (_ & Hbound & Hland) Hsub.
  pose proof (network_address_aligned parent Hland) as Haligned.
  pose proof (broadcast_address_add parent Hland) as Hbc.
  pose proof (hostmask_succ parent) as Hhm.
  rewrite Hv in *. simpl max_prefixlen in *.
  set (k := (48 - prefixlen parent)%N) in *.
  assert (2 ^ (128 - prefixlen parent) = 2 ^ k * 2 ^ 80)%N as Hpow
    by (rewrite <- N.pow_add_r; f_equal; lia).
  assert (2 ^ 80 ≠ 0)%N as H80 by done.
  assert (2 ^ k ≠ 0)%N as Hk by (apply N.pow_nonzero; lia).
  split.
  - unfold subnets in Hsub. rewrite Hv in Hsub. simpl max_prefixlen in Hsub.
    rewrite decide_False in Hsub by lia.
    rewrite decide_False in Hsub by lia.
    rewrite decide_False in Hsub by lia.
    rewrite slash48_step in Hsub by (rewrite ?Hv; simpl; lia).
    rewrite Hv in Hsub. simpl max_prefixlen in Hsub.
    change (2 ^ (128 - 48))%N with (2 ^ 80)%N in Hsub.
    injection Hsub as <-. rewrite length_fmap.
    unfold py_range_step. rewrite length_fmap, length_seq. f_equal.
    assert (broadcast_address parent + 1 - network_address parent + 2 ^ 80 - 1
            = 2 ^ 80 * 2 ^ k + (2 ^ 80 - 1))%N as -> by (rewrite Hbc; lia).
    symmetry. apply (N.div_unique _ _ _ (2 ^ 80 - 1)); lia.
  - pose proof (N.div_mod (network_address parent) (2 ^ k * 2 ^ 80)) as Hdm.
    rewrite Hpow in Haligned, Hhm. rewrite Haligned in Hdm.
    set (q := (network_address parent / (2 ^ k * 2 ^ 80))%N) in *.
    assert (network_address parent = 2 ^ k * q * 2 ^ 80)%N as Hstart by lia.
    assert (2 ^ 128 = 2 ^ prefixlen parent * (2 ^ k * 2 ^ 80))%N as H128.
    { rewrite <- !N.pow_add_r. f_equal. lia. }
    exists (2 ^ k * q)%N. intros i n Hi.
    destruct (subnets_slash48_lookup parent l i n)
      as (Hvn & Hpn & Han & Hle); try done; [by rewrite Hv|].
    rewrite Hv in Han, Hvn. simpl max_prefixlen in Han.
    change (2 ^ (128 - 48))%N with (2 ^ 80)%N in Han.
    rewrite Hbc in Hle.
    assert (network_address n = (2 ^ k * q + N.of_nat i) * 2 ^ 80)%N as Haddr
      by (rewrite Han, Hstart; lia).
    split.
    + destruct n as [vn an pn]. simpl in *. by rewrite Haddr, Hvn, Hpn.
    + assert (q < 2 ^ prefixlen parent)%N as Hq.
      { apply (N.mul_lt_mono_pos_l (2 ^ k * 2 ^ 80)); lia. }
      assert (network_address n < 2 ^ 48 * 2 ^ 80)%N as Hn128.
      { change (2 ^ 48 * 2 ^ 80)%N with (2 ^ 128)%N. rewrite H128.
        assert ((q + 1) * (2 ^ k * 2 ^ 80) ≤ 2 ^ prefixlen parent * (2 ^ k * 2 ^ 80))%N
          by (apply N.mul_le_mono_r; lia).
        lia. }
      rewrite Haddr in Hn128.
      by apply N.mul_lt_mono_pos_r in Hn128; [|lia].
Qed.


Lemma slash48_texts_NoDup (parent : IPNetwork) (l : list IPNetwork) :
  version parent = IPv6 →
  (prefixlen parent ≤ 48)%N →
  well_formed parent →
  subnets parent 48 = Return l →
  NoDup (str_network <$> l).
Proof.
  intros Hv Hlen Hwf Hsub.
  destruct (slash48_candidates parent l Hv Hlen Hwf Hsub) as (_ & s & Hs).
  apply NoDup_alt. intros i j text Hi Hj.
  rewrite list_lookup_fmap in Hi, Hj.
  destruct (l !! i) as [n|] eqn:Hni; [|done].
  destruct (l !! j) as [m|] eqn:Hmj; [|done].
  destruct (Hs i n Hni) as [-> Hbi]. destruct (Hs j m Hmj) as [-> Hbj].
  cbn [fmap option_fmap option_map] in Hi, Hj.
  rewrite <- Hj in Hi. injection Hi as Heq.
  unfold str_network in Heq. cbn [version network_address prefixlen] in Heq.
  apply string_app_inv_tail in Heq.
  apply str_address_aligned_inj in Heq; [lia|done..].
Qed.

(** X11.  A well-formed IPv6 parent block of prefix length [len] at most 48
    offers the prefix loop exactly 2^(48-len) candidates, and no two of them
    have the same text: comparing prefixes as strings never confuses two
    /48s of the block. *)
Theorem parent_capacity (parent : IPNetwork) (l : list IPNetwork) :
  version parent = IPv6 →
  (prefixlen parent ≤ 48)%N →
  well_formed parent →
  subnets parent 48 = Return l →
  length l = N.to_nat (2 ^ (48 - prefixlen parent))
  ∧ NoDup (str_network <$> l).
Proof.
  intros Hv Hlen Hwf Hsub. split.
  - by destruct (slash48_candidates parent l Hv Hlen Hwf Hsub) as [? _].
  - by apply slash48_texts_NoDup with parent.
Qed.


(** ** Filling a parent block *)

Lemma elem_of_taken_prefixes (db : Database) (s : string) :
  Some s ∈ taken_prefixes db ↔ s ∈ assigned_prefixes db.
Proof.
  unfold assigned_prefixes. rewrite list_elem_of_omap. split.
  - intros Hin. by exists (Some s).
  - intros (o & Ho & Hid). simpl in Hid. by subst o.
Qed.

Lemma first_free_at taken (l : list IPNetwork) (i : nat) (n : IPNetwork) :
  l !! i = Some n →
  Some (str_network n) ∉ taken →
  (∀ j m, (j < i)%nat → l !! j = Some m → Some (str_network m) ∈ taken) →
  first_free taken l = Some n.
Proof.
  revert i. induction l as [|m l IH]; intros i Hi Hfree Hbelow; [done|].
  destruct i as [|i]; simpl in Hi.
  - injection Hi as ->. by apply first_free_cons_free.
  - rewrite first_free_cons_taken by (apply (Hbelow O m); [lia|done]).
    apply (IH i Hi Hfree). intros j m' Hj Hm'. apply (Hbelow (S j) m'); [lia|done].
Qed.

Section fill.

Variable ip_network : string → option IPNetwork.

(** With the first [j] candidates assigned and nothing else, the next
    request to an existing PoP is given candidate [j]. *)
Lemma add_host_next_candidate db cfg parent (l : list IPNetwork) (j : nat)
    (n : IPNetwork) (host : Host) :
  find_one_config db = Some cfg →
  ip_network (cfg_prefix cfg) = Some parent →
  subnets parent 48 = Return l →
  NoDup (str_network <$> l) →
  assigned_prefixes db ≡ₚ str_network <$> take j l →
  l !! j = Some n →
  pop host ∈ name <$> pops db →
  ∃ db', add_host ip_network db host = (host_added, db')
         ∧ assigned_prefixes db' ≡ₚ str_network <$> take (S j) l
         ∧ find_one_config db' = Some cfg
         ∧ name <$> pops db' = name <$> pops db.
Proof.
  intros Hcfg Hparse Hsub Hnodup Hassigned Hj Hpop.
  assert (first_free (taken_prefixes db) l = Some n) as Hff.
  { apply (first_free_at _ _ j); [done|..].
    - rewrite elem_of_taken_prefixes, Hassigned, list_elem_of_fmap.
      intros (m & Heq & Hm). apply list_elem_of_lookup in Hm as [i Hi].
      apply lookup_take_Some in Hi as [Hi Hlt].
      assert (i = j); [|lia].
      apply (NoDup_lookup (str_network <$> l) i j (str_network n)); [done|..].
      + by rewrite list_lookup_fmap, Hi, Heq.
      + by rewrite list_lookup_fmap, Hj.
    - intros i m Hlt Hi. rewrite elem_of_taken_prefixes, Hassigned.
      apply list_elem_of_fmap. exists m. split; [done|].
      apply list_elem_of_lookup. exists i. by rewrite lookup_take_lt. }
  apply list_elem_of_fmap in Hpop as (p & Hname & Hp).
  destruct (push_host_present db (set_prefix host (str_network n)) p Hp)
    as (r & db' & Hpush); [done|].
  pose proof Hpush as Hdb'.
  apply push_host_Return in Hdb' as (-> & i & q & Hi & _ & ->).
  eexists. split; [|split; [|split]].
  - unfold add_host, find_prefix. rewrite Hcfg, Hparse, Hsub.
    rewrite prefix_loop_first_free, Hff. cbn [prefix set_prefix].
    rewrite truthy_str_network. exact Hpush.
  - rewrite assigned_prefixes_push by done. rewrite Hassigned.
    rewrite (take_S_r _ _ _ Hj), fmap_app. cbn [fmap list_fmap].
    by rewrite <- Permutation_cons_append.
  - done.
  - cbn [pops]. rewrite list_fmap_insert. cbn [name].
    apply list_insert_id. by rewrite list_lookup_fmap, Hi.
Qed.

End fill.


Section fill_parent.

Variable ip_network : string → option IPNetwork.

Lemma add_hosts_cons db (h : Host) (hs : list Host) :
  add_hosts ip_network db (h :: hs)
  = ((add_host ip_network db h).1
       :: (add_hosts ip_network (add_host ip_network db h).2 hs).1,
     (add_hosts ip_network (add_host ip_network db h).2 hs).2).
Proof.
  change (add_hosts ip_network db (h :: hs))
    with (let '(r, db1) := add_host ip_network db h in
          let '(rs, db2) := add_hosts ip_network db1 hs in (r :: rs, db2)).
  destruct (add_host ip_network db h) as [r db1]. cbn [fst snd].
  by destruct (add_hosts ip_network db1 hs).
Qed.

Lemma add_hosts_fill_from cfg parent (l : list IPNetwork) (hs : list Host) :
  ip_network (cfg_prefix cfg) = Some parent →
  subnets parent 48 = Return l →
  NoDup (str_network <$> l) →
  ∀ db j,
    find_one_config db = Some cfg →
    assigned_prefixes db ≡ₚ str_network <$> take j l →
    (j + length hs ≤ length l)%nat →
    Forall (λ h, pop h ∈ name <$> pops db) hs →
    (add_hosts ip_network db hs).1 = replicate (length hs) host_added
    ∧ assigned_prefixes (add_hosts ip_network db hs).2
      ≡ₚ str_network <$> take (j + length hs) l
    ∧ find_one_config (add_hosts ip_network db hs).2 = Some cfg.
Proof.
  intros Hparse Hsub Hnodup.
  induction hs as [|h hs IH]; intros db j Hcfg Hassigned Hlen Hpops.
  - simpl. by rewrite Nat.add_0_r.
  - simpl in Hlen. apply Forall_cons in Hpops as [Hpop Hpops].
    destruct (lookup_lt_is_Some_2 l j) as [n Hn]; [lia|].
    destruct (add_host_next_candidate ip_network db cfg parent l j n h)
      as (db1 & Hadd & Hassigned1 & Hcfg1 & Hnames); try done.
    destruct (IH db1 (S j)) as (Hrs & Hfinal & Hcfgf); try done; [lia|..].
    { eapply Forall_impl; [exact Hpops|]. intros h' Hh'. by rewrite Hnames. }
    rewrite add_hosts_cons, Hadd. cbn [fst snd length replicate].
    rewrite Hrs. repeat split; [|done].
    by replace (j + S (length hs))%nat with (S j + length hs)%nat by lia.
Qed.

(** X12.  Filling a parent block.  On a registry in which no prefix is
    assigned yet, with a well-formed IPv6 parent of prefix length at most
    48, requests for existing PoPs that arrive one after the other are all
    answered 200 as long as they are no more than the parent has /48s; the
    prefixes they are given are the first candidates of the block, each
    once.  When the block is used up, every further request that carries no
    prefix is answered 500 and changes nothing. *)
Theorem add_hosts_fill_parent db cfg parent (l : list IPNetwork) (hs : list Host) :
  find_one_config db = Some cfg →
  ip_network (cfg_prefix cfg) = Some parent →
  version parent = IPv6 →
  (prefixlen parent ≤ 48)%N →
  well_formed parent →
  subnets parent 48 = Return l →
  assigned_prefixes db = [] →
  Forall (λ h, pop h ∈ name <$> pops db) hs →
  (length hs ≤ length l)%nat →
  (add_hosts ip_network db hs).1 = replicate (length hs) host_added
  ∧ assigned_prefixes (add_hosts ip_network db hs).2
    ≡ₚ str_network <$> take (length hs) l
  ∧ NoDup (assigned_prefixes (add_hosts ip_network db hs).2)
  ∧ (length hs = length l →
     ∀ host, truthy (prefix host) = false →
       add_host ip_network (add_hosts ip_network db hs).2 host
       = (Raise (HTTPException HTTP_500_INTERNAL_SERVER_ERROR),
          (add_hosts ip_network db hs).2)).
Proof.
  intros Hcfg Hparse Hv Hplen Hwf Hsub Hempty Hpops Hlen.
  pose proof (slash48_texts_NoDup parent l Hv Hplen Hwf Hsub) as Hnodup.
  assert (assigned_prefixes db ≡ₚ str_network <$> take 0 l) as Hstart
    by (by rewrite Hempty, take_0).
  destruct (add_hosts_fill_from cfg parent l hs Hparse Hsub Hnodup db O
              Hcfg Hstart Hlen Hpops) as (Hrs & Hassigned & Hcfg').
  simpl in Hassigned. split; [done|]. split; [done|]. split.
  - rewrite Hassigned. apply (sublist_NoDup _ (str_network <$> l)); [done|].
    apply fmap_sublist, sublist_take.
  - intros Hfull host Hunset. apply add_host_find_prefix_Raise.
    unfold find_prefix. rewrite Hcfg', Hparse, Hsub, prefix_loop_first_free.
    assert (first_free (taken_prefixes (add_hosts ip_network db hs).2) l = None)
      as ->; [|by rewrite Hunset].
    apply first_free_None. intros n Hn.
    rewrite elem_of_taken_prefixes, Hassigned, Hfull, firstn_all.
    apply list_elem_of_fmap. by exists n.
Qed.

End fill_parent.

(** * The Ansible inventory *)

(** ** Dicts *)














(** ** The loop as a sequence of assignments *)





(** ** Keys: a name followed by a decimal index *)










(** ** The inventory *)













(** ** A host that was added is listed *)

Section add_host_then_inventory.

Variable ip_network : string → option IPNetwork.



End add_host_then_inventory.
(** ** The further properties on the example fleet *)

Lemma add_host_failure_writes_nothing_slash64 :
  (add_host ip_network_v6 slash64_fleet (request "ams" "192.0.2.1")).2 = slash64_fleet.
Proof.
  apply (add_host_failure_writes_nothing ip_network_v6 slash64_fleet
           (request "ams" "192.0.2.1") ValueError).
  vm_compute. reflexivity.
Defined.

Lemma add_pop_keeps_names_unique_fleet :
  add_pop empty_fleet (pop_of "ams" [])
  = (Raise (HTTPException HTTP_409_CONFLICT), empty_fleet)
  ∧ (∃ r, add_pop empty_fleet (pop_of "lon" []) = (Return r, fleet_lon))
  ∧ NoDup (name <$> pops (add_pop empty_fleet (pop_of "lon" [])).2).
Proof.
  split; [|split].
  - destruct (add_pop_keeps_names_unique empty_fleet (pop_of "ams" [])) as [H _].
    apply H. apply elem_of_cons. by left.
  - destruct (add_pop_keeps_names_unique empty_fleet (pop_of "lon" [])) as (_ & H & _).
    apply H. intros Hin.
    apply elem_of_cons in Hin as [|Hin]; [done|].
    apply elem_of_cons in Hin as [|Hin]; [done|].
    by apply elem_of_nil in Hin.
  - destruct (add_pop_keeps_names_unique empty_fleet (pop_of "lon" [])) as (_ & _ & H).
    apply H. apply NoDup_cons. split; [|apply NoDup_singleton].
    by intros Hin%list_elem_of_singleton.
Defined.

Lemma add_pop_then_add_host_lon :
  ∃ r' i p,
    pops fleet_lon !! i = Some p ∧ name p = "lon"
    ∧ add_host ip_network_v6 fleet_lon (request "lon" "192.0.2.3")
      = (Return r',
         {| config := config fleet_lon; containers := containers fleet_lon;
            pops := <[i := {| name := name p;
                              hosts := (hosts p
                                        ++ [set_prefix (request "lon" "192.0.2.3")
                                              "2001:db8::/48"])%list |}]>
                      (pops fleet_lon) |}).
Proof.
  apply (add_pop_then_add_host ip_network_v6 empty_fleet (pop_of "lon" [])
           {| status_code := 200; content := "PoP lon added" |} fleet_lon
           (request "lon" "192.0.2.3")).
  - vm_compute. reflexivity.
  - reflexivity.
Defined.

Lemma interleaved_requests_share_prefix_fleet :
  ∃ slash48 db',
    run_schedule ip_network_v6 [0; 1; 0; 1; 0; 1]%nat
      [AwaitPops (request "ams" "192.0.2.1"); AwaitPops (request "fra" "192.0.2.2")]
      empty_fleet
    = ([Finished host_added; Finished host_added], db')
    ∧ assigned_prefixes db' ≡ₚ slash48 :: slash48 :: assigned_prefixes empty_fleet
    ∧ ¬ NoDup (assigned_prefixes db').
Proof.
  eapply (interleaved_requests_share_prefix ip_network_v6 empty_fleet
            (request "ams" "192.0.2.1") (request "fra" "192.0.2.2")).
  - reflexivity.
  - reflexivity.
  - vm_compute. reflexivity.
  - vm_compute. reflexivity.
Defined.

Lemma parent_capacity_slash46 :
  length slash46_subnets = N.to_nat (2 ^ (48 - prefixlen slash46))
  ∧ NoDup (str_network <$> slash46_subnets).
Proof.
  apply (parent_capacity slash46 slash46_subnets).
  - reflexivity.
  - vm_compute. discriminate.
  - vm_compute. repeat split; discriminate.
  - vm_compute. reflexivity.
Defined.

Lemma add_hosts_fill_parent_slash46 :
  (add_hosts ip_network_v6 empty_fleet four_requests).1
  = replicate (length four_requests) host_added
  ∧ assigned_prefixes (add_hosts ip_network_v6 empty_fleet four_requests).2
    ≡ₚ str_network <$> take (length four_requests) slash46_subnets
  ∧ NoDup (assigned_prefixes (add_hosts ip_network_v6 empty_fleet four_requests).2)
  ∧ (length four_requests = length slash46_subnets →
     ∀ host, truthy (prefix host) = false →
       add_host ip_network_v6 (add_hosts ip_network_v6 empty_fleet four_requests).2 host
       = (Raise (HTTPException HTTP_500_INTERNAL_SERVER_ERROR),
          (add_hosts ip_network_v6 empty_fleet four_requests).2)).
Proof.
  apply (add_hosts_fill_parent ip_network_v6 empty_fleet
           {| prefix4 := "10.0.0."; prefix6 := "fd00::"; cfg_prefix := "2001:db8::/46" |}
           slash46 slash46_subnets four_requests).
  - reflexivity.
  - vm_compute. reflexivity.
  - reflexivity.
  - vm_compute. discriminate.
  - vm_compute. repeat split; discriminate.
  - vm_compute. reflexivity.
  - reflexivity.
  - vm_compute. repeat constructor.
  - vm_compute. lia.
Defined.



